(** * VocalizeAI: the text-to-speech facade ([core/text_to_speech.py])
      and the tools of the application that call it ([app.py])

    A shallow embedding of class [TextToSpeech] and the properties of its
    synthesis, streaming, batch, preset, validation and estimation methods,
    and of the session and the two synthesis tools of the application.

    - [Py] holds the Python primitives the class relies on: [str] values as
      lists of Unicode code points, [str.isspace], [str.strip], [str.split],
      decimal rendering of integers and the [in] test on strings.
    - [World] holds what the class runs in: exceptions, the responses of the
      provider, the events a call leaves behind, and a state-and-exception
      monad over the trace of those events and the file store.  The SDK
      client, [requests.post], [datetime.now] and the disk are oracles that
      answer from the trace so far.
    - [TextToSpeech] holds the class itself, method by method.
    - [Scenarios] holds the concrete clients, endpoints and inputs the
      methods are evaluated on.
    - [Wider] holds the methods that need more of the world:
      [synthesize_multilingual] with [client.generate], and
      [get_audio_info] with [soundfile]; its runs embed those of [World].
    - [App] holds [initialize_session_state], the voice choice and the two
      tools of [main] that synthesise, over the session dictionary.
    - [Observations] and [MoreScenarios] hold what the later facts read
      off a run, and the inputs they are evaluated on.

    The facts follow, from the primitives up to the methods. *)

From Stdlib Require Import Floats Uint63 ZArith Ascii String.
From stdpp Require Import gmap strings list pretty.

Set Warnings "-inexact-float,-abstract-large-number".
Open Scope Z_scope.

(* ===================================================================== *)
(** * Python primitives                                                   *)
(* ===================================================================== *)

Module Py.

(** A [str] is a sequence of Unicode code points; [len] is [length]. *)
Definition codepoint := N.
Definition pystr := list codepoint.

(** A [bytes] value. *)
Definition bytes := list Byte.byte.

(** An ASCII literal of the source. *)
Definition lit (s : string) : pystr := N_of_ascii <$> list_ascii_of_string s.

(** [str.isspace] on one character: the code points Python treats as
    whitespace (the set used by [strip()] and [split()] without argument). *)
Definition isspace (c : codepoint) : bool :=
  ((9 <=? c) && (c <=? 13) || (28 <=? c) && (c <=? 32)
   || (c =? 133) || (c =? 160) || (c =? 5760)
   || (8192 <=? c) && (c <=? 8202)
   || (c =? 8232) || (c =? 8233) || (c =? 8239) || (c =? 8287)
   || (c =? 12288))%N.

Fixpoint lstrip (s : pystr) : pystr :=
  match s with
  | [] => []
  | c :: s' => if isspace c then lstrip s' else s
  end.

Definition rstrip (s : pystr) : pystr := rev (lstrip (rev s)).

(** [s.strip()] *)
Definition strip (s : pystr) : pystr := rstrip (lstrip s).

(** [s.split()]: the maximal runs of non-whitespace characters, in order.
    [cur] is the run being read, most recent character first. *)
Fixpoint split_from (cur : pystr) (s : pystr) : list pystr :=
  match s with
  | [] => match cur with [] => [] | _ => [rev cur] end
  | c :: s' =>
      if isspace c
      then match cur with
           | [] => split_from [] s'
           | _ => rev cur :: split_from [] s'
           end
      else split_from (c :: cur) s'
  end.

Definition split (s : pystr) : list pystr := split_from [] s.

(** [str(n)] for an [int]. *)
Definition str_of_int (n : Z) : pystr := lit (pretty n).

(** [not s] for a [str]. *)
Definition falsy (s : pystr) : bool :=
  match s with [] => true | _ => false end.

(** [needle in hay] for two [str], as a proposition ... *)
Definition contains (needle hay : pystr) : Prop :=
  exists pre post, hay = pre ++ needle ++ post.

(** ... and as the test the interpreter runs. *)
Fixpoint starts_with (needle hay : pystr) : bool :=
  match needle, hay with
  | [], _ => true
  | _ :: _, [] => false
  | a :: needle', b :: hay' => (a =? b)%N && starts_with needle' hay'
  end.

Fixpoint str_in (needle hay : pystr) : bool :=
  starts_with needle hay ||
  match hay with
  | [] => false
  | _ :: hay' => str_in needle hay'
  end.

(** What "whitespace-delimited tokens" means: [tokens s ws] holds when [s]
    is the words [ws], each non-empty and free of whitespace, separated by
    non-empty runs of whitespace, with optional whitespace at both ends. *)
Definition blank (s : pystr) : Prop := Forall (fun c => isspace c = true) s.
Definition word (s : pystr) : Prop :=
  s <> [] /\ Forall (fun c => isspace c = false) s.

(** [s] is empty or starts with a character that fails [p]. *)
Definition stops (p : codepoint -> bool) (s : pystr) : Prop :=
  match s with [] => True | c :: _ => p c = false end.

Inductive tokens : pystr -> list pystr -> Prop :=
| tokens_blank gap :
    blank gap -> tokens gap []
| tokens_last gap w :
    blank gap -> word w -> tokens (gap ++ w) [w]
| tokens_more gap w sp rest ws :
    blank gap -> word w -> isspace sp = true ->
    tokens rest ws -> tokens (gap ++ w ++ sp :: rest) (w :: ws).

End Py.

(* ===================================================================== *)
(** * The world the class runs in                                         *)
(* ===================================================================== *)

Module World.
Import Py.

(** A raised exception: its class and what [str(e)] gives. *)
Record exn := Exn { exn_type : string; exn_str : pystr }.

Inductive outcome (A : Type) : Type :=
| Ret (a : A)
| Raise (e : exn).
Arguments Ret {A} a.
Arguments Raise {A} e.

(** An iterable of byte chunks as its consumer sees it: the chunks it
    delivers, then either exhaustion or an exception. *)
Record chunk_iter := { it_chunks : list bytes; it_error : option exn }.

(** What [client.text_to_speech.convert] may hand back, by the shape the
    facade tests for, in the order it tests. *)
Inductive sdk_response : Type :=
| RespContent (content : option bytes)  (* has a [content] attribute *)
| RespBytes (b : bytes)                 (* a [bytes] or [bytearray] *)
| RespIterable (it : chunk_iter)        (* an iterable of chunks *)
| RespOpaque.                           (* anything else: joining it raises *)

(** A [requests] response. *)
Record http_response := {
  status_code : Z;
  content : bytes;
  resp_text : pystr;
  iter_content : Z -> chunk_iter  (* by [chunk_size] *)
}.

Record payload := {
  p_text : pystr; p_model : pystr; p_stability : float; p_similarity : float
}.

Record http_request := {
  req_url : pystr;
  req_headers : list (pystr * pystr);
  req_json : payload;
  req_stream : bool
}.

(** The lines the class prints. *)
Inductive message : Type :=
| MsgSynthesizing
| MsgText (text : pystr)
| MsgVoiceId (voice_id : pystr)
| MsgNoAudio
| MsgGenerated
| MsgSavedTo (path : pystr)
| MsgSynthesisFailed (e : exn)
| MsgStreamingHttp (status : Z)
| MsgStreamingFailed (e : exn)
| MsgRestHttp (status : Z) (text : pystr)
| MsgRestError (e : exn)
| MsgBatchProgress (i n : nat).

(** The text of each line, as the f-strings build it. *)
Definition render (m : message) : pystr :=
  match m with
  | MsgSynthesizing => 127925%N :: lit " Synthesizing speech..."
  | MsgText text => 128221%N :: lit " Text: " ++ text
  | MsgVoiceId v => 127380%N :: lit " Voice ID: " ++ v
  | MsgNoAudio => 10060%N :: lit " Speech synthesis failed: no audio received"
  | MsgGenerated => 9989%N :: lit " Audio generated successfully!"
  | MsgSavedTo path => 128190%N :: lit " Saved to: " ++ path
  | MsgSynthesisFailed e => 10060%N :: lit " Speech synthesis failed: " ++ exn_str e
  | MsgStreamingHttp s =>
      10060%N :: lit " Streaming synthesis failed: HTTP " ++ str_of_int s
  | MsgStreamingFailed e =>
      10060%N :: lit " Streaming synthesis failed: " ++ exn_str e
  | MsgRestHttp s text =>
      10060%N :: lit " REST TTS failed: HTTP " ++ str_of_int s
        ++ lit " - " ++ text
  | MsgRestError e => 10060%N :: lit " REST generate error: " ++ exn_str e
  | MsgBatchProgress i n =>
      10%N :: 128196%N :: lit " Synthesizing " ++ str_of_int (Z.of_nat i)
        ++ lit "/" ++ str_of_int (Z.of_nat n) ++ lit "..."
  end.

(** Everything a call does that can be observed from outside, in order. *)
Inductive event : Type :=
| EvPrint (m : message)
| EvConvert (voice_id text model_id : pystr) (stability similarity : float)
| EvStream (voice_id text model_id : pystr) (stability similarity : float)
| EvPost (req : http_request)
| EvNow
| EvOpen (path : pystr)
| EvYield (chunk : bytes).

(** The structured provider client.  A capability the installed SDK lacks
    ([hasattr] is false) is [None]. *)
Record sdk_client := {
  text_to_speech_convert :
    option (list event -> pystr -> pystr -> pystr -> float -> float ->
            outcome sdk_response);
  text_to_speech_stream :
    option (list event -> pystr -> pystr -> pystr -> float -> float ->
            outcome chunk_iter)
}.

(** What [open(path, 'wb')] followed by [f.write(data)] can do. *)
Inductive write_result : Type :=
| Written                                 (* the file holds [data] *)
| OpenFailed (e : exn)                    (* no file was created *)
| WriteFailed (e : exn) (partial : bytes). (* created, then the write raised *)

(** [requests.post], [datetime.now().strftime] and the disk. *)
Record platform := {
  requests_post : list event -> http_request -> outcome http_response;
  strftime_now : list event -> pystr;
  open_write : list event -> pystr -> bytes -> write_result
}.

Record world := { trace : list event; files : gmap pystr bytes }.

Definition log (e : event) (w : world) : world :=
  {| trace := trace w ++ [e]; files := files w |}.

(** [w] after the events [evs]. *)
Definition extend (evs : list event) (w : world) : world :=
  {| trace := trace w ++ evs; files := files w |}.

(** State and exceptions. *)
Definition M (A : Type) : Type := world -> outcome A * world.

Definition ret {A} (a : A) : M A := fun w => (Ret a, w).

Definition bind {A B} (m : M A) (k : A -> M B) : M B :=
  fun w =>
    match m w with
    | (Ret a, w') => k a w'
    | (Raise e, w') => (Raise e, w')
    end.

Definition raise {A} (e : exn) : M A := fun w => (Raise e, w).

(** [try: body / except Exception as e: handler e] *)
Definition try_except {A} (body : M A) (handler : exn -> M A) : M A :=
  fun w =>
    match body w with
    | (Ret a, w') => (Ret a, w')
    | (Raise e, w') => handler e w'
    end.

Definition emit (e : event) : M unit := fun w => (Ret tt, log e w).

Definition print (m : message) : M unit := emit (EvPrint m).

(** A call out of the program: the oracle answers from the trace so far,
    and the call is recorded. *)
Definition call {A} (e : event) (oracle : list event -> outcome A) : M A :=
  fun w => (oracle (trace w), log e w).

Definition now (p : platform) : M pystr :=
  call EvNow (fun tr => Ret (strftime_now p tr)).

(** [with open(path, 'wb') as f: f.write(data)] *)
Definition write_file (p : platform) (path : pystr) (data : bytes) : M unit :=
  fun w =>
    let w' := log (EvOpen path) w in
    match open_write p (trace w) path data with
    | Written =>
        (Ret tt, {| trace := trace w'; files := <[path := data]> (files w') |})
    | OpenFailed e => (Raise e, w')
    | WriteFailed e partial =>
        (Raise e,
         {| trace := trace w'; files := <[path := partial]> (files w') |})
    end.

#[global] Instance M_ret : MRet M := @ret.
#[global] Instance M_bind : MBind M := fun A B k m => bind m k.

(** [for x in xs: body x] *)
Fixpoint for_each {A} (xs : list A) (body : A -> M unit) : M unit :=
  match xs with
  | [] => ret tt
  | x :: xs' => bind (body x) (fun _ => for_each xs' body)
  end.

(** [for chunk in it: body chunk], the iterator raising at its end if it
    is one that fails. *)
Definition for_chunks (it : chunk_iter) (body : bytes -> M unit) : M unit :=
  bind (for_each (it_chunks it) body) (fun _ =>
  match it_error it with
  | Some e => raise e
  | None => ret tt
  end).

(** [b"".join(it)] *)
Definition join (it : chunk_iter) : outcome bytes :=
  match it_error it with
  | Some e => Raise e
  | None => Ret (concat (it_chunks it))
  end.

(** A body cut into blocks of [n] bytes, the last one shorter when [n]
    does not divide its length: what [iter_content(chunk_size=n)] delivers
    for a body that has arrived in full. *)
Fixpoint blocks_upto (fuel n : nat) (body : bytes) : list bytes :=
  match fuel, body with
  | S fuel', _ :: _ => take n body :: blocks_upto fuel' n (drop n body)
  | _, _ => []
  end.

Definition blocks (n : nat) (body : bytes) : list bytes :=
  blocks_upto (length body) n body.

(** The chunks a trace shows as yielded to the consumer, in order. *)
Definition yielded (tr : list event) : list bytes :=
  omap (fun e => match e with EvYield c => Some c | _ => None end) tr.

(** The requests a trace shows as sent to the provider, SDK or REST. *)
Definition is_network (e : event) : bool :=
  match e with
  | EvConvert _ _ _ _ _ | EvStream _ _ _ _ _ | EvPost _ => true
  | _ => false
  end.

Definition is_post (e : event) : bool :=
  match e with EvPost _ => true | _ => false end.

Definition is_open (e : event) : bool :=
  match e with EvOpen _ => true | _ => false end.

(** The texts a trace shows [synthesize] was entered with, in order. *)
Definition announced (tr : list event) : list pystr :=
  omap (fun e => match e with EvPrint (MsgText t) => Some t | _ => None end) tr.

End World.

(* ===================================================================== *)
(** * Class [TextToSpeech]                                                *)
(* ===================================================================== *)

Module TextToSpeech.
Import Py World.

(** The instance: [self.api_key], [self.client], [self.output_dir]. *)
Record instance := {
  api_key : pystr;
  client : sdk_client;
  output_dir : pystr
}.

Record voice_settings := { stability : float; similarity : float }.

#[global] Instance voice_settings_inhabited : Inhabited voice_settings :=
  populate {| stability := 0%float; similarity := 0%float |}.

(** [Path / filename] *)
Definition path_join (dir name : pystr) : pystr := dir ++ lit "/" ++ name.

(** [if result:] for a value that is [None] or a [str]. *)
Definition truthy (result : option pystr) : bool :=
  match result with
  | Some s => negb (falsy s)
  | None => false
  end.

(** [if chunk:] for a [bytes]. *)
Definition nonempty (chunk : bytes) : bool :=
  match chunk with [] => false | _ => true end.

(** Lines 64-73 of [synthesize]: the bytes of a structured response, or
    [None].  Iterating a response has no effect outside it, so the inner
    [try]/[except] around [b"".join(resp)] is a match on [join]. *)
Definition extract_bytes (resp : sdk_response) : option bytes :=
  match resp with
  | RespContent c => c
  | RespBytes b => Some b
  | RespIterable it =>
      match join it with
      | Ret b => Some b
      | Raise _ => None
      end
  | RespOpaque => None
  end.

Definition default_stability : float := 0.5%float.
Definition default_similarity : float := 0.75%float.
Definition default_max_length : Z := 5000.
Definition default_words_per_minute : float := 150%float.
Definition chunk_size : Z := 4096.

Section Methods.

Variable self : instance.
Variable os : platform.

Definition monolingual : pystr := lit "eleven_monolingual_v1".

(** The REST request both fallbacks send. *)
Definition tts_request (text voice_id : pystr) (stab sim : float)
    (model : pystr) (stream : bool) : http_request :=
  {| req_url := lit "https://api.elevenlabs.io/v1/text-to-speech/" ++ voice_id;
     req_headers :=
       [ (lit "Accept", lit "audio/mpeg");
         (lit "Content-Type", lit "application/json");
         (lit "xi-api-key", api_key self) ];
     req_json :=
       {| p_text := text; p_model := model;
          p_stability := stab; p_similarity := sim |};
     req_stream := stream |}.

Definition post (req : http_request) : M http_response :=
  call (EvPost req) (fun tr => requests_post os tr req).

Definition _rest_generate_bytes (text voice_id : pystr) (stab sim : float)
    (model : pystr) : M (option bytes) :=
  try_except
    (resp ← post (tts_request text voice_id stab sim model false);
     if status_code resp =? 200
     then ret (Some (content resp))
     else print (MsgRestHttp (status_code resp) (resp_text resp));; ret None)
    (fun e => print (MsgRestError e);; ret None).

Definition synthesize (text voice_id : pystr) (stab sim : float)
    (output_path : option pystr) : M (option pystr) :=
  try_except
    (print MsgSynthesizing;;
     print (MsgText text);;
     print (MsgVoiceId voice_id);;
     audio_bytes ←
       match text_to_speech_convert (client self) with
       | Some convert =>
           try_except
             (resp ← call (EvConvert voice_id text monolingual stab sim)
                       (fun tr => convert tr voice_id text monolingual stab sim);
              ret (extract_bytes resp))
             (fun _ => _rest_generate_bytes text voice_id stab sim monolingual)
       | None => _rest_generate_bytes text voice_id stab sim monolingual
       end;
     match audio_bytes with
     | None => print MsgNoAudio;; ret None
     | Some data =>
         output_path ←
           match output_path with
           | None =>
               timestamp ← now os;
               ret (path_join (output_dir self)
                      (lit "output_" ++ timestamp ++ lit ".mp3"))
           | Some p => ret p
           end;
         write_file os output_path data;;
         print MsgGenerated;;
         print (MsgSavedTo output_path);;
         ret (Some output_path)
     end)
    (fun e => print (MsgSynthesisFailed e);; ret None).

Definition yield (chunk : bytes) : M unit := emit (EvYield chunk).

(** Lines 118-135 of [synthesize_streaming]: the structured attempt.  The
    result is [true] when the generator reaches the [return] of line 131. *)
Definition sdk_streaming (text voice_id : pystr) (stab sim : float) : M bool :=
  match text_to_speech_stream (client self) with
  | Some stream =>
      try_except
        (stream_gen ← call (EvStream voice_id text monolingual stab sim)
                        (fun tr => stream tr voice_id text monolingual stab sim);
         for_chunks stream_gen yield;;
         ret true)
        (fun _ => ret false)
  | None => ret false
  end.

(** Lines 137-158: the REST streaming fallback. *)
Definition rest_streaming (text voice_id : pystr) (stab sim : float) : M unit :=
  resp ← post (tts_request text voice_id stab sim monolingual true);
  if status_code resp =? 200
  then for_chunks (iter_content resp chunk_size)
         (fun chunk => if nonempty chunk then yield chunk else ret tt)
  else print (MsgStreamingHttp (status_code resp)).

(** The generator, run until its consumer has exhausted it: the chunks it
    yields are the [EvYield] events it leaves on the trace. *)
Definition synthesize_streaming (text voice_id : pystr) (stab sim : float)
    : M unit :=
  try_except
    (returned ← sdk_streaming text voice_id stab sim;
     if returned : bool then ret tt
     else rest_streaming text voice_id stab sim)
    (fun e => print (MsgStreamingFailed e)).

(** The loop of [batch_synthesize], from index [i] on. *)
Fixpoint batch_loop (n i : nat) (texts : list pystr) (voice_id : pystr)
    (stab sim : float) (output_paths : list pystr) : M (list pystr) :=
  match texts with
  | [] => ret output_paths
  | text :: texts' =>
      print (MsgBatchProgress (i + 1) n);;
      timestamp ← now os;
      let filename :=
        lit "batch_" ++ str_of_int (Z.of_nat (i + 1)) ++ lit "_"
          ++ timestamp ++ lit ".mp3" in
      let output_path := path_join (output_dir self) filename in
      result ← synthesize text voice_id stab sim (Some output_path);
      batch_loop n (S i) texts' voice_id stab sim
        (match result with
         | Some path => if truthy result then output_paths ++ [path]
                        else output_paths
         | None => output_paths
         end)
  end.

Definition batch_synthesize (texts : list pystr) (voice_id : pystr)
    (stab sim : float) : M (list pystr) :=
  batch_loop (length texts) 0 texts voice_id stab sim [].

Definition validate_text (text : pystr) (max_length : Z) : bool * pystr :=
  if falsy text || falsy (strip text)
  then (false, lit "Text is empty")
  else if Z.of_nat (length text) >? max_length
  then (false,
        lit "Text too long (" ++ str_of_int (Z.of_nat (length text))
          ++ lit " chars). Maximum: " ++ str_of_int max_length)
  else (true, lit "Text valid").

(** [len(...)] as the float the division converts it to. *)
Definition float_of_len (n : nat) : float :=
  PrimFloat.of_uint63 (Uint63.of_Z (Z.of_nat n)).

Definition ZeroDivisionError : exn :=
  {| exn_type := "ZeroDivisionError"; exn_str := lit "division by zero" |}.

(** [words_per_minute] is a float here; an [int] argument such as the
    default 150 behaves as the float of the same value. *)
Definition estimate_audio_duration (text : pystr) (words_per_minute : float)
    : outcome float :=
  let word_count := length (split text) in
  if PrimFloat.eqb words_per_minute 0%float
  then Raise ZeroDivisionError
  else
    let duration_minutes :=
      PrimFloat.div (float_of_len word_count) words_per_minute in
    let duration_seconds := PrimFloat.mul duration_minutes 60%float in
    Ret duration_seconds.

Definition presets : gmap pystr voice_settings :=
  list_to_map
    [ (lit "stable", {| stability := 0.75%float; similarity := 0.75%float |});
      (lit "balanced", {| stability := 0.50%float; similarity := 0.75%float |});
      (lit "expressive", {| stability := 0.30%float; similarity := 0.80%float |}) ].

Definition get_voice_settings_preset (preset : pystr) : voice_settings :=
  default (presets !!! lit "balanced") (presets !! preset).

Definition synthesize_with_preset (text voice_id preset : pystr)
    : M (option pystr) :=
  let settings := get_voice_settings_preset preset in
  synthesize text voice_id (stability settings) (similarity settings) None.

(** ** Reading a run *)

(** The first request a call to [synthesize] sends: the structured call
    when the client has [convert], the REST request when it has not. *)
Definition first_attempt (text voice_id : pystr) (stab sim : float) : event :=
  match text_to_speech_convert (client self) with
  | Some _ => EvConvert voice_id text monolingual stab sim
  | None => EvPost (tts_request text voice_id stab sim monolingual false)
  end.

(** The REST request [req], sent at trace [tr], gives no audio: it raises
    or is answered with a status other than 200. *)
Definition rest_fails_at (tr : list event) (req : http_request) : Prop :=
  match requests_post os tr req with
  | Ret resp => status_code resp <> 200
  | Raise _ => True
  end.

(** A call to [synthesize] that makes its first request at trace [tr]
    comes to line 81 with [audio_bytes is None]: the structured call
    returns a response that holds no bytes; or the REST request, which is
    sent when the client lacks [convert] or when the structured call has
    raised, fails at the trace it is sent at. *)
Definition obtains_no_audio (tr : list event) (text voice_id : pystr)
    (stab sim : float) : Prop :=
  match text_to_speech_convert (client self) with
  | Some convert =>
      match convert tr voice_id text monolingual stab sim with
      | Ret resp => extract_bytes resp = None
      | Raise _ =>
          rest_fails_at
            (tr ++ [EvConvert voice_id text monolingual stab sim])
            (tts_request text voice_id stab sim monolingual false)
      end
  | None =>
      rest_fails_at tr (tts_request text voice_id stab sim monolingual false)
  end.

(** The REST endpoint gives no audio for the request [req]: whenever it is
    sent, it raises or is answered with a status other than 200. *)
Definition rest_gives_no_audio (req : http_request) : Prop :=
  forall tr,
    match requests_post os tr req with
    | Ret resp => status_code resp <> 200
    | Raise _ => True
    end.

(** What the structured stream does for a generator entered with trace
    [tr]: the events it leaves, the chunks it delivers and whether it runs
    to its end. *)
Definition stream_answer (tr : list event) (text voice_id : pystr)
    (stab sim : float) : option (outcome chunk_iter) :=
  match text_to_speech_stream (client self) with
  | Some stream => Some (stream tr voice_id text monolingual stab sim)
  | None => None
  end.

Definition streamed (tr : list event) (text voice_id : pystr)
    (stab sim : float) : list bytes :=
  match stream_answer tr text voice_id stab sim with
  | Some (Ret it) => it_chunks it
  | _ => []
  end.

Definition stream_completes (tr : list event) (text voice_id : pystr)
    (stab sim : float) : bool :=
  match stream_answer tr text voice_id stab sim with
  | Some (Ret it) => match it_error it with None => true | Some _ => false end
  | _ => false
  end.

Definition sdk_events (tr : list event) (text voice_id : pystr)
    (stab sim : float) : list event :=
  match stream_answer tr text voice_id stab sim with
  | Some _ =>
      EvStream voice_id text monolingual stab sim
        :: (EvYield <$> streamed tr text voice_id stab sim)
  | None => []
  end.

(** The chunks the transport delivers to the REST streaming fallback when
    the request is sent at trace [tr]: those of [iter_content(4096)] on a
    200 response, none otherwise. *)
Definition delivered (tr : list event) (text voice_id : pystr)
    (stab sim : float) : list bytes :=
  match requests_post os tr
          (tts_request text voice_id stab sim monolingual true) with
  | Ret resp =>
      if status_code resp =? 200
      then it_chunks (iter_content resp chunk_size)
      else []
  | Raise _ => []
  end.

(** The path [batch_synthesize] gives the text of index [i]. *)
Definition batch_path (i : nat) (timestamp : pystr) : pystr :=
  path_join (output_dir self)
    (lit "batch_" ++ str_of_int (Z.of_nat (i + 1)) ++ lit "_"
       ++ timestamp ++ lit ".mp3").

(** One call of [synthesize] per text, each in the world the one before
    left, from index [i] on: the result of every call, in order, and the
    world after the last. *)
Fixpoint synthesize_each (n i : nat) (texts : list pystr) (voice_id : pystr)
    (stab sim : float) (w : world) : list (option pystr) * world :=
  match texts with
  | [] => ([], w)
  | text :: texts' =>
      let progress := EvPrint (MsgBatchProgress (i + 1) n) in
      let path := batch_path i (strftime_now os (trace w ++ [progress])) in
      let '(r, w1) :=
        synthesize text voice_id stab sim (Some path)
          (extend [progress; EvNow] w) in
      let '(rs, w2) := synthesize_each n (S i) texts' voice_id stab sim w1 in
      (match r with Ret result => result | Raise _ => None end :: rs, w2)
  end.

End Methods.

(** The results that are paths, in order. *)
Definition successes (results : list (option pystr)) : list pystr :=
  omap id results.

End TextToSpeech.

(* ===================================================================== *)
(** * Concrete runs                                                       *)
(* ===================================================================== *)

(** Instances, platforms and inputs on which the methods are evaluated. *)
Module Scenarios.
Import Py World TextToSpeech.

(** A world before anything happened. *)
Definition fresh : world := {| trace := []; files := ∅ |}.

Definition voice : pystr := lit "voice_1".

(** ["x" * 5001] and [" " * 5001] *)
Definition long_text : pystr := replicate 5001 120%N.
Definition long_blank_text : pystr := replicate 5001 32%N.

Definition provider_error : exn :=
  {| exn_type := "ApiError"; exn_str := lit "stream interrupted" |}.

Definition audio_a : bytes := [Byte.x41; Byte.x41].
Definition audio_b : bytes := [Byte.x42; Byte.x42; Byte.x42].

(** A 200 response with body [body], streamed as the chunks [chunks]. *)
Definition ok_response (body : bytes) (chunks : list bytes) : http_response :=
  {| status_code := 200; content := body; resp_text := [];
     iter_content := fun _ => {| it_chunks := chunks; it_error := None |} |}.

Definition server_error : http_response :=
  {| status_code := 500; content := []; resp_text := lit "Internal Server Error";
     iter_content := fun _ => {| it_chunks := []; it_error := None |} |}.

(** A platform whose REST endpoint serves [audio_b] in one chunk. *)
Definition serving : platform :=
  {| requests_post := fun _ _ => Ret (ok_response audio_b [audio_b]);
     strftime_now := fun _ => lit "20240101_120000";
     open_write := fun _ _ _ => Written |}.

(** A platform whose REST endpoint answers 500. *)
Definition failing : platform :=
  {| requests_post := fun _ _ => Ret server_error;
     strftime_now := fun _ => lit "20240101_120000";
     open_write := fun _ _ _ => Written |}.

(** A platform whose REST endpoint serves [audio_b], except for the text
    ["two"], for which it answers 500. *)
Definition serving_but_two : platform :=
  {| requests_post := fun _ req =>
       if str_in (lit "two") (p_text (req_json req))
       then Ret server_error
       else Ret (ok_response audio_b [audio_b]);
     strftime_now := fun _ => lit "20240101_120000";
     open_write := fun _ _ _ => Written |}.

Definition without_sdk : sdk_client :=
  {| text_to_speech_convert := None; text_to_speech_stream := None |}.

(** A client whose [convert] returns [audio_a] as [bytes]. *)
Definition converting : sdk_client :=
  {| text_to_speech_convert := Some (fun _ _ _ _ _ _ => Ret (RespBytes audio_a));
     text_to_speech_stream := None |}.

(** A client whose [convert] returns an iterable that raises when it is
    iterated, and whose [stream] delivers [audio_a] and then raises. *)
Definition interrupted : sdk_client :=
  {| text_to_speech_convert := Some (fun _ _ _ _ _ _ =>
       Ret (RespIterable {| it_chunks := []; it_error := Some provider_error |}));
     text_to_speech_stream := Some (fun _ _ _ _ _ _ =>
       Ret {| it_chunks := [audio_a]; it_error := Some provider_error |}) |}.

Definition tts (c : sdk_client) : instance :=
  {| api_key := lit "key"; client := c; output_dir := lit "assets/outputs" |}.

(** A platform whose disk takes the first byte of a file and then raises;
    its REST endpoint serves [audio_b]. *)
Definition disk_full : platform :=
  {| requests_post := fun _ _ => Ret (ok_response audio_b [audio_b]);
     strftime_now := fun _ => lit "20240101_120000";
     open_write := fun _ _ data =>
       WriteFailed {| exn_type := "OSError";
                      exn_str := lit "No space left on device" |}
                   (take 1 data) |}.

(** A platform whose REST endpoint answers 200 with an empty body. *)
Definition serving_nothing : platform :=
  {| requests_post := fun _ _ => Ret (ok_response [] []);
     strftime_now := fun _ => lit "20240101_120000";
     open_write := fun _ _ _ => Written |}.

End Scenarios.

(* ===================================================================== *)
(** * The rest of the class                                               *)
(* ===================================================================== *)

(** [get_available_models], [synthesize_multilingual] and
    [get_audio_info].  The last two print lines and make calls of their
    own, so they run over a wider trace, which holds the events of the
    methods above beside theirs. *)
Module Wider.
Import Py World TextToSpeech.

Definition get_available_models : list pystr :=
  [ lit "eleven_monolingual_v1";
    lit "eleven_multilingual_v1";
    lit "eleven_multilingual_v2";
    lit "eleven_turbo_v2" ].

Definition multilingual : pystr := lit "eleven_multilingual_v2".

(** The lines these two methods print. *)
Inductive line : Type :=
| LineMultilingualStarted
| LineMultilingualNoAudio
| LineMultilingualGenerated
| LineMultilingualFailed (e : exn)
| LineAudioInfoError (e : exn).

Definition render_line (l : line) : pystr :=
  match l with
  | LineMultilingualStarted =>
      127757%N :: lit " Multilingual synthesis started..."
  | LineMultilingualNoAudio =>
      10060%N :: lit " Multilingual synthesis failed: no audio received"
  | LineMultilingualGenerated => 9989%N :: lit " Multilingual audio generated!"
  | LineMultilingualFailed e =>
      10060%N :: lit " Multilingual synthesis failed: " ++ exn_str e
  | LineAudioInfoError e =>
      10060%N :: lit " Error getting audio info: " ++ exn_str e
  end.

(** What the application puts on the page, by call site in [app.py]. *)
Inductive widget : Type :=
| InfoClonedVoice (name : option pystr)  (* [st.info] in the voice choice *)
| WarningDefaultVoice                    (* [st.warning] in the voice choice *)
| Audio (path : pystr)                   (* [st.audio] *)
| Progress (percent : Z)                 (* [st.progress], [.progress] *)
| ProgressEmpty                          (* [progress_bar.empty()] *)
| ErrorPipeline (e : exn)                (* [st.error] of the pipeline *)
| Spinner                                (* [st.spinner] of the text tool *)
| ErrorTts (e : exn)                     (* [st.error] of the text tool *)
| WarningNoText.                         (* [st.warning] of the text tool *)

(** One step of a run: an event of the methods above, a line, a call of
    [client.generate], a call of [soundfile.info], and for the
    application a widget, a call of [speech_to_text.transcribe] or a call
    of [translator.translate]. *)
Inductive step : Type :=
| Base (e : event)
| Say (l : line)
| Generate (text voice_id model : pystr) (stab sim : float)
| SoundInfo (path : pystr)
| Shows (w : widget)
| Transcribe (audio_path : pystr)
| Translate (text language : pystr).

Record wide := { steps : list step; disk : gmap pystr bytes }.

(** The events among the steps: what the oracles of [World] answer from. *)
Definition base_trace (ss : list step) : list event :=
  omap (fun s => match s with Base e => Some e | _ => None end) ss.

Definition narrow (ww : wide) : world :=
  {| trace := base_trace (steps ww); files := disk ww |}.

Definition after (ss : list step) (ww : wide) : wide :=
  {| steps := steps ww ++ ss; disk := disk ww |}.

Definition W (A : Type) : Type := wide -> outcome A * wide.

Definition wret {A} (a : A) : W A := fun ww => (Ret a, ww).

Definition wbind {A B} (m : W A) (k : A -> W B) : W B :=
  fun ww =>
    match m ww with
    | (Ret a, ww') => k a ww'
    | (Raise e, ww') => (Raise e, ww')
    end.

Definition wtry {A} (body : W A) (handler : exn -> W A) : W A :=
  fun ww =>
    match body ww with
    | (Ret a, ww') => (Ret a, ww')
    | (Raise e, ww') => handler e ww'
    end.

#[global] Instance W_ret : MRet W := @wret.
#[global] Instance W_bind : MBind W := fun A B k m => wbind m k.

Definition say (l : line) : W unit := fun ww => (Ret tt, after [Say l] ww).

(** A value or an exception that is already there. *)
Definition settle {A} (o : outcome A) : W A := fun ww => (o, ww).

(** A method of the class above, run on the events and the disk of the
    wider world; the events it adds are added as they are. *)
Definition lift {A} (m : M A) : W A :=
  fun ww =>
    let w := narrow ww in
    let '(r, w') := m w in
    (r, {| steps := steps ww ++ (Base <$> drop (length (trace w)) (trace w'));
           disk := files w' |}).

(** [client.generate], when the client has it: an iterable of chunks or an
    exception, from the events so far. *)
Definition generate_fn : Type :=
  list event -> pystr -> pystr -> float -> float -> pystr -> outcome chunk_iter.

Definition call_generate (generate : generate_fn) (text voice_id : pystr)
    (stab sim : float) (model : pystr) : W chunk_iter :=
  fun ww =>
    (generate (base_trace (steps ww)) text voice_id stab sim model,
     after [Generate text voice_id model stab sim] ww).

Definition synthesize_multilingual (self : instance)
    (generate : option generate_fn) (os : platform)
    (text voice_id : pystr) (stab sim : float) : W (option pystr) :=
  wtry
    (say LineMultilingualStarted;;
     audio_bytes ←
       match generate with
       | Some client_generate =>
           wtry
             (audio_generator ←
                call_generate client_generate text voice_id stab sim
                  multilingual;
              joined ← settle (join audio_generator);
              wret (Some joined))
             (fun _ =>
                lift (_rest_generate_bytes self os text voice_id stab sim
                        multilingual))
       | None =>
           lift (_rest_generate_bytes self os text voice_id stab sim
                   multilingual)
       end;
     match audio_bytes with
     | None => say LineMultilingualNoAudio;; wret None
     | Some data =>
         timestamp ← lift (now os);
         let filename := lit "multilingual_" ++ timestamp ++ lit ".mp3" in
         let output_path := path_join (output_dir self) filename in
         lift (write_file os output_path data);;
         say LineMultilingualGenerated;;
         wret (Some output_path)
     end)
    (fun e => say (LineMultilingualFailed e);; wret None).

(** What [soundfile.info] reads off a file. *)
Record sound_info := {
  sf_duration : float;
  sf_samplerate : Z;
  sf_channels : Z;
  sf_format : pystr;
  sf_frames : Z
}.

(** The dictionary [get_audio_info] returns. *)
Record audio_info := {
  duration : float;
  sample_rate : Z;
  channels : Z;
  format : pystr;
  frames : Z;
  file_size : Z
}.

(** [import soundfile as sf; sf.info(path)] on the disk as it is. *)
Definition soundfile : Type := pystr -> gmap pystr bytes -> outcome sound_info.

Definition FileNotFoundError (path : pystr) : exn :=
  {| exn_type := "FileNotFoundError";
     exn_str := lit "[Errno 2] No such file or directory: '" ++ path ++ lit "'" |}.

(** [Path(path).stat().st_size] *)
Definition stat_size (path : pystr) : W Z :=
  fun ww =>
    (match disk ww !! path with
     | Some data => Ret (Z.of_nat (length data))
     | None => Raise (FileNotFoundError path)
     end, ww).

Definition get_audio_info (sf : soundfile) (audio_path : pystr)
    : W (option audio_info) :=
  wtry
    (info ← (fun ww => (sf audio_path (disk ww), after [SoundInfo audio_path] ww));
     size ← stat_size audio_path;
     wret (Some {| duration := sf_duration info;
                   sample_rate := sf_samplerate info;
                   channels := sf_channels info;
                   format := sf_format info;
                   frames := sf_frames info;
                   file_size := size |}))
    (fun e => say (LineAudioInfoError e);; wret None).

(** The lines, the [generate] calls and the events a run shows. *)
Definition said (ss : list step) : list line :=
  omap (fun s => match s with Say l => Some l | _ => None end) ss.

End Wider.

(* ===================================================================== *)
(** * The application ([app.py])                                          *)
(* ===================================================================== *)

(** [initialize_session_state], the voice choice of [main] and its two
    tools that call [text_to_speech.synthesize].  [st.session_state] is a
    dictionary from names to [None] or a string; the transcriber, the
    translator and the synthesiser are what [main] is given.  The widgets
    that take a text put it on the page, as [print] puts a line on the
    terminal; [st.audio] opens the file it is given, and raises when it
    cannot. *)
Module App.
Import Py World TextToSpeech Wider.

Definition session_state : Type := gmap pystr (option pystr).

Definition defaults : list (pystr * option pystr) :=
  [ (lit "cloned_voice_id", None);
    (lit "cloned_voice_name", None);
    (lit "source_text", None);
    (lit "source_text_label", Some (lit "Orijinal Metin"));
    (lit "translated_text", None);
    (lit "output_audio_path", None) ].

Definition initialize_session_state (s : session_state) : session_state :=
  foldl (fun (s : session_state) '(key, value) =>
           match s !! key with
           | Some _ => s
           | None => <[key := value]> s
           end) s defaults.

(** [st.audio] on a path, [speech_to_text.transcribe],
    [translator.translate] and [text_to_speech.synthesize] with the four
    arguments [main] passes. *)
Record collaborators := {
  st_audio : list step -> gmap pystr bytes -> pystr -> outcome unit;
  transcribe : list step -> pystr -> outcome (option pystr);
  translate : list step -> pystr -> pystr -> outcome (option pystr);
  tts_synthesize : pystr -> pystr -> float -> float -> W (option pystr)
}.

(** The session, the steps and the disk; an exception leaves the session
    as it was when it was raised. *)
Definition A (T : Type) : Type :=
  session_state -> wide -> outcome T * session_state * wide.

Definition aret {T} (a : T) : A T := fun s ww => (Ret a, s, ww).

Definition abind {T U} (m : A T) (k : T -> A U) : A U :=
  fun s ww =>
    match m s ww with
    | (Ret a, s', ww') => k a s' ww'
    | (Raise e, s', ww') => (Raise e, s', ww')
    end.

Definition araise {T} (e : exn) : A T := fun s ww => (Raise e, s, ww).

Definition atry {T} (body : A T) (handler : exn -> A T) : A T :=
  fun s ww =>
    match body s ww with
    | (Ret a, s', ww') => (Ret a, s', ww')
    | (Raise e, s', ww') => handler e s' ww'
    end.

(** [try: body / finally: final] *)
Definition afinally {T} (body : A T) (final : A unit) : A T :=
  fun s ww =>
    match body s ww with
    | (r, s', ww') =>
        match final s' ww' with
        | (Ret _, s'', ww'') => (r, s'', ww'')
        | (Raise e, s'', ww'') => (Raise e, s'', ww'')
        end
    end.

#[global] Instance A_ret : MRet A := @aret.
#[global] Instance A_bind : MBind A := fun T U k m => abind m k.

Definition run {T} (m : W T) : A T :=
  fun s ww => let '(r, ww') := m ww in (r, s, ww').

Definition shows (w : widget) : A unit :=
  fun s ww => (Ret tt, s, after [Shows w] ww).

Definition AttributeError (name : pystr) : exn :=
  {| exn_type := "AttributeError";
     exn_str := lit "st.session_state has no attribute " ++ name |}.

(** [st.session_state.<name>] *)
Definition get (name : string) : A (option pystr) :=
  fun s ww =>
    (match s !! lit name with
     | Some value => Ret value
     | None => Raise (AttributeError (lit name))
     end, s, ww).

(** [st.session_state.<name> = value] *)
Definition set (name : string) (value : option pystr) : A unit :=
  fun s ww => (Ret tt, <[lit name := value]> s, ww).

Definition ValueError (message : pystr) : exn :=
  {| exn_type := "ValueError"; exn_str := message |}.

(** The two messages of the pipeline and its label, in code points. *)
Definition no_transcription : pystr :=
  [83; 101; 115; 32; 109; 101; 116; 110; 101; 32; 100; 246; 110; 252; 351;
   116; 252; 114; 252; 108; 101; 109; 101; 100; 105; 46]%N.

Definition no_translation : pystr :=
  [77; 101; 116; 105; 110; 32; 231; 101; 118; 114; 105; 108; 101; 109; 101;
   100; 105; 46]%N.

Definition label_transcribed : pystr :=
  [68; 101; 351; 105; 102; 114; 101; 32; 69; 100; 105; 108; 101; 110; 32;
   77; 101; 116; 105; 110]%N.

Definition label_entered : pystr := lit "Girilen Metin".

(** [if not value: raise ValueError(message)], for a value that is [None]
    or a string; what is left is the string. *)
Definition require (value : option pystr) (message : pystr) : A pystr :=
  match value with
  | Some text => if falsy text then araise (ValueError message) else aret text
  | None => araise (ValueError message)
  end.

Definition get_voice_id_and_show_info : A pystr :=
  cloned_voice_id ← get "cloned_voice_id";
  match cloned_voice_id with
  | Some voice =>
      if falsy voice
      then shows WarningDefaultVoice;; aret (lit "Rachel")
      else
        cloned_voice_name ← get "cloned_voice_name";
        shows (InfoClonedVoice cloned_voice_name);;
        aret voice
  | None => shows WarningDefaultVoice;; aret (lit "Rachel")
  end.

Section Tools.

Variable c : collaborators.

(** [st.audio(path)]: the player is on the page when the file could be
    opened; when it could not, the call raises and nothing is shown. *)
Definition audio (path : pystr) : A unit :=
  fun s ww =>
    match st_audio c (steps ww) (disk ww) path with
    | Ret _ => (Ret tt, s, after [Shows (Audio path)] ww)
    | Raise e => (Raise e, s, ww)
    end.

Definition call_transcribe (audio_path : pystr) : A (option pystr) :=
  fun s ww =>
    (transcribe c (steps ww) audio_path, s,
     after [Transcribe audio_path] ww).

Definition call_translate (text language : pystr) : A (option pystr) :=
  fun s ww =>
    (translate c (steps ww) text language, s,
     after [Translate text language] ww).

(** The speech-to-speech tool of [main], once a recording is there. *)
Definition speech_to_speech (audio_path_translate target_language : pystr)
    (stab sim : float) : A unit :=
  audio audio_path_translate;;
  shows (Progress 0);;
  afinally
    (atry
       (voice_to_use ← get_voice_id_and_show_info;
        shows (Progress 25);;
        transcribed_text ← call_transcribe audio_path_translate;
        set "source_text" transcribed_text;;
        set "source_text_label" (Some label_transcribed);;
        transcribed ← require transcribed_text no_transcription;
        shows (Progress 50);;
        translated_text ← call_translate transcribed target_language;
        set "translated_text" translated_text;;
        translated ← require translated_text no_translation;
        shows (Progress 75);;
        output_path ← run (tts_synthesize c translated voice_to_use stab sim);
        set "output_audio_path" output_path;;
        shows (Progress 100))
       (fun e => shows (ErrorPipeline e)))
    (shows ProgressEmpty).

(** The text-to-speech tool of [main], once its button is pressed. *)
Definition text_to_speech_tool (tts_text : pystr) (stab sim : float) : A unit :=
  if falsy tts_text
  then shows WarningNoText
  else
    shows Spinner;;
    atry
      (voice_to_use ← get_voice_id_and_show_info;
       set "source_text" (Some tts_text);;
       set "source_text_label" (Some label_entered);;
       set "translated_text" None;;
       output_path ← run (tts_synthesize c tts_text voice_to_use stab sim);
       set "output_audio_path" output_path)
      (fun e => shows (ErrorTts e)).

End Tools.

(** The application with the class of this repository as its
    synthesiser: [TextToSpeech(api_key).synthesize]. *)
Definition with_class (self : instance) (os : platform)
    (st_audio_ : list step -> gmap pystr bytes -> pystr -> outcome unit)
    (transcribe_ : list step -> pystr -> outcome (option pystr))
    (translate_ : list step -> pystr -> pystr -> outcome (option pystr))
    : collaborators :=
  {| st_audio := st_audio_;
     transcribe := transcribe_;
     translate := translate_;
     tts_synthesize := fun text voice_id stab sim =>
       lift (synthesize self os text voice_id stab sim None) |}.

(** The widgets, and the texts sent to the translator, among the steps. *)
Definition shown (ss : list step) : list widget :=
  omap (fun s => match s with Shows w => Some w | _ => None end) ss.

End App.

(* ===================================================================== *)
(** * Reading runs further                                                *)
(* ===================================================================== *)

(** What more is needed to say what a run did. *)
Module Observations.
Import Py World TextToSpeech Wider App.

(** The path [synthesize] writes to when it is given none, and the one
    [synthesize_multilingual] writes to. *)
Definition default_path (self : instance) (timestamp : pystr) : pystr :=
  path_join (output_dir self) (lit "output_" ++ timestamp ++ lit ".mp3").

Definition multilingual_path (self : instance) (timestamp : pystr) : pystr :=
  path_join (output_dir self) (lit "multilingual_" ++ timestamp ++ lit ".mp3").

(** The trace at which [synthesize] makes its first request: the one it
    was entered with and its three lines. *)
Definition entry (w : world) (text voice_id : pystr) : list event :=
  trace w ++ [EvPrint MsgSynthesizing; EvPrint (MsgText text);
              EvPrint (MsgVoiceId voice_id)].

(** The structured call and the REST request of a call. *)
Definition convert_event (text voice_id : pystr) (stab sim : float) : event :=
  EvConvert voice_id text monolingual stab sim.

Definition post_event (self : instance) (text voice_id : pystr)
    (stab sim : float) (model : pystr) (stream : bool) : event :=
  EvPost (tts_request self text voice_id stab sim model stream).

(** The files a trace shows as opened for writing, in order. *)
Definition opened (tr : list event) : list pystr :=
  omap (fun e => match e with EvOpen p => Some p | _ => None end) tr.

(** A decimal digit. *)
Definition is_digit (c : codepoint) : bool := ((48 <=? c) && (c <=? 57))%N.

(** The calls of [client.generate] among the steps of a run. *)
Definition is_generate (s : step) : bool :=
  match s with Generate _ _ _ _ _ => true | _ => false end.

End Observations.

(** More clients, endpoints and inputs. *)
Module MoreScenarios.
Import Py World TextToSpeech Wider App Observations Scenarios.

(** A client whose [convert] returns [audio_a] for the text ["one"] and
    [audio_b] for any other. *)
Definition by_text : sdk_client :=
  {| text_to_speech_convert := Some (fun _ _ text _ _ _ =>
       if str_in (lit "one") text
       then Ret (RespBytes audio_a)
       else Ret (RespBytes audio_b));
     text_to_speech_stream := None |}.

(** A client whose [stream] delivers an empty chunk and [audio_a], and
    ends. *)
Definition streaming : sdk_client :=
  {| text_to_speech_convert := None;
     text_to_speech_stream := Some (fun _ _ _ _ _ _ =>
       Ret {| it_chunks := [[]; audio_a]; it_error := None |}) |}.

(** A platform whose REST endpoint serves [audio_b] as an empty chunk
    followed by the body. *)
Definition serving_with_gap : platform :=
  {| requests_post := fun _ _ => Ret (ok_response audio_b [[]; audio_b]);
     strftime_now := fun _ => lit "20240101_120000";
     open_write := fun _ _ _ => Written |}.

(** A wider world before anything happened. *)
Definition fresh_wide : wide := {| steps := []; disk := ∅ |}.

(** A [generate] that delivers [audio_a] and [audio_b] and ends, and one
    that delivers [audio_a] and then raises. *)
Definition generating : generate_fn :=
  fun _ _ _ _ _ _ =>
    Ret {| it_chunks := [audio_a; audio_b]; it_error := None |}.

Definition generate_interrupted : generate_fn :=
  fun _ _ _ _ _ _ =>
    Ret {| it_chunks := [audio_a]; it_error := Some provider_error |}.

(** A [soundfile] that reads every file that is there as one second of
    mono MP3 audio, and raises on a file that is not. *)
Definition one_second : sound_info :=
  {| sf_duration := 1%float; sf_samplerate := 22050; sf_channels := 1;
     sf_format := lit "MP3"; sf_frames := 22050 |}.

Definition reading : soundfile :=
  fun path files =>
    match files !! path with
    | Some _ => Ret one_second
    | None => Raise {| exn_type := "LibsndfileError";
                       exn_str := lit "Error opening file" |}
    end.

(** A wider world in which [audio_a] is the file ["a.mp3"]. *)
Definition stored : wide :=
  {| steps := []; disk := {[ lit "a.mp3" := audio_a ]} |}.

(** A session after its initialisation, and one in which a voice has
    been cloned since. *)
Definition session : session_state := initialize_session_state ∅.


(** A transcriber that hears ["merhaba"] and one that hears nothing; a
    translator that answers ["hello"] and one that answers [None]. *)
Definition hearing : list step -> pystr -> outcome (option pystr) :=
  fun _ _ => Ret (Some (lit "merhaba")).

Definition hearing_nothing : list step -> pystr -> outcome (option pystr) :=
  fun _ _ => Ret (Some []).

Definition translating
    : list step -> pystr -> pystr -> outcome (option pystr) :=
  fun _ _ _ => Ret (Some (lit "hello")).

Definition translating_nothing
    : list step -> pystr -> pystr -> outcome (option pystr) :=
  fun _ _ _ => Ret None.

(** An [st.audio] that opens every recording, and one that opens none. *)
Definition playing : list step -> gmap pystr bytes -> pystr -> outcome unit :=
  fun _ _ _ => Ret tt.

Definition unplayable
    : list step -> gmap pystr bytes -> pystr -> outcome unit :=
  fun _ _ _ => Raise {| exn_type := "MediaFileStorageError";
                        exn_str := lit "Error opening the file" |}.

(** The application over the class, with a client whose [convert]
    returns a buffer and an [st.audio] that opens every recording. *)
Definition app (transcribe_ : list step -> pystr -> outcome (option pystr))
    (translate_ : list step -> pystr -> pystr -> outcome (option pystr))
    : collaborators :=
  with_class (tts converting) serving playing transcribe_ translate_.

End MoreScenarios.

Import Py World TextToSpeech Wider App Observations.

(* ===================================================================== *)
(** * Facts about the Python primitives                                   *)
(* ===================================================================== *)

(** ** [strip] *)

Lemma lstrip_head c s t : lstrip s = c :: t -> isspace c = false.
Proof.
  induction s as [|a s IH]; simpl; [done|].
  destruct (isspace a) eqn:Ha; [exact IH|].
  intros [= -> _]. exact Ha.
Qed.

Lemma lstrip_nil s : lstrip s = [] <-> blank s.
Proof.
  unfold blank. induction s as [|a s IH]; simpl.
  - split; [constructor | done].
  - destruct (isspace a) eqn:Ha.
    + rewrite IH. split; [by constructor | by inversion 1].
    + split; [done|]. inversion 1; congruence.
Qed.

Lemma blank_lstrip s : blank (lstrip s) -> blank s.
Proof.
  intros Hb. apply lstrip_nil.
  destruct (lstrip s) as [|c t] eqn:E; [done|].
  apply lstrip_head in E. inversion Hb; congruence.
Qed.

Lemma strip_nil s : strip s = [] <-> blank s.
Proof.
  unfold strip, rstrip. split.
  - intros H. apply blank_lstrip.
    assert (Hr : lstrip (rev (lstrip s)) = []).
    { destruct (lstrip (rev (lstrip s))) as [|c t]; [done|].
      simpl in H. by destruct (rev t). }
    apply lstrip_nil in Hr. unfold blank in *.
    rewrite <- (rev_involutive (lstrip s)).
    by apply Forall_rev.
  - intros H. apply lstrip_nil in H. by rewrite H.
Qed.

(** The test [not text or text.strip() == ""] of [validate_text]. *)
Lemma blank_test text : falsy text || falsy (strip text) = true <-> blank text.
Proof.
  rewrite <- strip_nil. destruct text as [|c t]; simpl; [done|].
  destruct (strip (c :: t)); simpl; split; done.
Qed.

(** ** [in] on strings *)

Lemma contains_middle pre needle post : contains needle (pre ++ needle ++ post).
Proof. by exists pre, post. Qed.

Lemma contains_cons c needle hay : contains needle hay -> contains needle (c :: hay).
Proof. intros (pre & post & ->). by exists (c :: pre), post. Qed.

Lemma contains_app_r pre needle hay :
  contains needle hay -> contains needle (pre ++ hay).
Proof.
  intros H. induction pre as [|c pre IH]; [done|]. by apply contains_cons.
Qed.

Lemma starts_with_spec needle hay :
  starts_with needle hay = true <-> exists post, hay = needle ++ post.
Proof.
  revert hay. induction needle as [|a needle IH]; intros hay; simpl.
  - split; [by exists hay | done].
  - destruct hay as [|b hay].
    + split; [done | by intros [post ?]].
    + rewrite andb_true_iff, N.eqb_eq, IH. split.
      * intros [-> [post ->]]. by exists post.
      * intros [post [= -> ->]]. split; [done | by exists post].
Qed.

Lemma str_in_spec needle hay : str_in needle hay = true <-> contains needle hay.
Proof.
  induction hay as [|b hay IH].
  - simpl. rewrite orb_false_r, starts_with_spec. split.
    + intros [post ->]. exists [], post. done.
    + intros (pre & post & H). destruct pre; [by exists post|done].
  - cbn [str_in]. rewrite orb_true_iff, IH, starts_with_spec. split.
    + intros [[post ->] | H]; [by exists [], post | by apply contains_cons].
    + intros (pre & post & H). destruct pre as [|c pre].
      * left. by exists post.
      * right. injection H as _ ->. by exists pre, post.
Qed.

(** ** [split] and the whitespace-delimited tokens *)

Lemma tokens_cons_space c s ws :
  isspace c = true -> tokens s ws -> tokens (c :: s) ws.
Proof.
  intros Hc H. destruct H as [gap Hg | gap w Hg Hw | gap w sp rest ws Hg Hw Hsp Hr].
  - apply tokens_blank. by constructor.
  - apply (tokens_last (c :: gap)); [by constructor | done].
  - apply (tokens_more (c :: gap)); [by constructor | done ..].
Qed.

Lemma split_from_tokens s cur :
  Forall (fun c => isspace c = false) cur ->
  tokens (rev cur ++ s) (split_from cur s).
Proof.
  revert cur. induction s as [|c s IH]; intros cur Hcur.
  - simpl. destruct cur as [|a cur].
    + apply tokens_blank. constructor.
    + rewrite app_nil_r. apply (tokens_last []); [constructor|].
      split; [|by apply Forall_rev].
      simpl. by destruct (rev cur).
  - cbn [split_from]. destruct (isspace c) eqn:Hc.
    + destruct cur as [|a cur].
      * apply tokens_cons_space; [done|]. apply (IH []). constructor.
      * apply (tokens_more []); [constructor| |done|].
        -- split; [|by apply Forall_rev]. simpl. by destruct (rev cur).
        -- apply (IH []). constructor.
    + replace (rev cur ++ c :: s) with (rev (c :: cur) ++ s)
        by (simpl; by rewrite <- app_assoc).
      apply IH. by constructor.
Qed.

(** [split] yields a tokenisation of its argument ... *)
Lemma split_tokens s : tokens s (split s).
Proof. apply (split_from_tokens s []). constructor. Qed.

(** A run of characters satisfying [p], followed by something that does
    not start with one, can be read off a string in one way only. *)
Lemma run_unique (p : codepoint -> bool) a1 b1 a2 b2 :
  Forall (fun c => p c = true) a1 -> Forall (fun c => p c = true) a2 ->
  stops p b1 -> stops p b2 ->
  a1 ++ b1 = a2 ++ b2 -> a1 = a2 /\ b1 = b2.
Proof.
  revert a2. induction a1 as [|x a1 IH]; intros a2 H1 H2 S1 S2 E.
  - destruct a2 as [|y a2]; [done|]. simpl in E. subst b1.
    inversion H2; subst. simpl in S1. congruence.
  - destruct a2 as [|y a2].
    + simpl in E. subst b2. inversion H1; subst. simpl in S2. congruence.
    + simpl in E. injection E as -> E. inversion H1; inversion H2; subst.
      destruct (IH a2) as [-> ->]; done.
Qed.

Lemma word_stops w rest : word w -> stops isspace (w ++ rest).
Proof. intros [Hne Hw]. destruct w; [done|]. by inversion Hw. Qed.

Lemma word_not_blank gap w rest : word w -> ~ blank (gap ++ w ++ rest).
Proof.
  intros [Hne Hw] Hb. unfold blank in Hb.
  apply Forall_app in Hb as [_ Hb]. apply Forall_app in Hb as [Hb _].
  destruct w as [|c w]; [done|]. inversion Hw; inversion Hb; congruence.
Qed.

Lemma word_run w : word w -> Forall (fun c => negb (isspace c) = true) w.
Proof.
  intros [_ Hw]. eapply Forall_impl; [exact Hw|].
  intros c Hc. simpl in Hc. by rewrite Hc.
Qed.

(** ... and the only one. *)
Lemma tokens_unique s ws1 ws2 : tokens s ws1 -> tokens s ws2 -> ws1 = ws2.
Proof.
  intros H1. revert ws2.
  induction H1 as [gap Hg | gap w Hg Hw | gap w sp rest ws Hg Hw Hsp Hr IH];
    intros ws2 H2.
  - inversion H2 as [ | gap' w' Hg' Hw' E | gap' w' sp' rest' ws' Hg' Hw' Hsp' Hr' E];
      subst; [done | exfalso ..].
    + apply (word_not_blank gap' w' [] Hw'). by rewrite app_nil_r.
    + by apply (word_not_blank gap' w' (sp' :: rest') Hw').
  - inversion H2 as [gap' Hg' E | gap' w' Hg' Hw' E | gap' w' sp' rest' ws' Hg' Hw' Hsp' Hr' E];
      subst.
    + exfalso. apply (word_not_blank gap w [] Hw). by rewrite app_nil_r.
    + destruct (run_unique isspace gap' w' gap w) as [_ ->]; try done.
      * rewrite <- (app_nil_r w'). by apply word_stops.
      * rewrite <- (app_nil_r w). by apply word_stops.
    + exfalso.
      destruct (run_unique isspace gap' (w' ++ sp' :: rest') gap w) as [_ E'];
        try done.
      * by apply word_stops.
      * rewrite <- (app_nil_r w). by apply word_stops.
      * destruct Hw as [_ Hw]. rewrite <- E' in Hw.
        apply Forall_app in Hw as [_ Hw]. inversion Hw; congruence.
  - inversion H2 as [gap' Hg' E | gap' w' Hg' Hw' E | gap' w' sp' rest' ws' Hg' Hw' Hsp' Hr' E];
      subst.
    + exfalso. by apply (word_not_blank gap w (sp :: rest) Hw).
    + exfalso.
      destruct (run_unique isspace gap' w' gap (w ++ sp :: rest)) as [_ E'];
        try done.
      * rewrite <- (app_nil_r w'). by apply word_stops.
      * by apply word_stops.
      * destruct Hw' as [_ Hw']. rewrite E' in Hw'.
        apply Forall_app in Hw' as [_ Hw']. inversion Hw'; congruence.
    + destruct (run_unique isspace gap' (w' ++ sp' :: rest') gap (w ++ sp :: rest))
        as [_ E']; try done; try by apply word_stops.
      destruct (run_unique (fun c => negb (isspace c)) w' (sp' :: rest') w (sp :: rest))
        as [-> E'']; try done; try by apply word_run.
      * simpl. by rewrite Hsp'.
      * simpl. by rewrite Hsp.
      * injection E'' as -> ->. f_equal. by apply IH.
Qed.

(* ===================================================================== *)
(** * [validate_text]                                                     *)
(* ===================================================================== *)

Lemma validate_text_blank text max_length :
  blank text -> validate_text text max_length = (false, lit "Text is empty").
Proof.
  intros H. apply blank_test in H. unfold validate_text. by rewrite H.
Qed.

Lemma validate_text_not_blank text max_length :
  ~ blank text ->
  validate_text text max_length =
    if Z.of_nat (length text) >? max_length
    then (false,
          lit "Text too long (" ++ str_of_int (Z.of_nat (length text))
            ++ lit " chars). Maximum: " ++ str_of_int max_length)
    else (true, lit "Text valid").
Proof.
  intros H. unfold validate_text.
  destruct (falsy text || falsy (strip text)) eqn:E; [|done].
  by apply blank_test in E.
Qed.

(** C8, as the code has it.  [validate_text] tests emptiness first: a text
    that is empty or only whitespace gets [(False, "Text is empty")]
    whatever its length; a text that is not, and is longer than
    [max_length], gets [False] and a reason that holds both [len(text)] and
    [max_length] in decimal; any other text gets [(True, "Text valid")]. *)
Theorem validate_text_cases (text : pystr) (max_length : Z) :
  (blank text ->
     validate_text text max_length = (false, lit "Text is empty") /\
     contains (lit "empty") (validate_text text max_length).2) /\
  (~ blank text -> Z.of_nat (length text) > max_length ->
     (validate_text text max_length).1 = false /\
     contains (str_of_int (Z.of_nat (length text)))
       (validate_text text max_length).2 /\
     contains (str_of_int max_length) (validate_text text max_length).2) /\
  (~ blank text -> Z.of_nat (length text) <= max_length ->
     validate_text text max_length = (true, lit "Text valid")).
Proof.
  split; [|split].
  - intros H. rewrite (validate_text_blank _ _ H). split; [done|].
    by exists (lit "Text is "), [].
  - intros H Hlen. rewrite (validate_text_not_blank _ _ H).
    destruct (Z.gtb_spec (Z.of_nat (length text)) max_length) as [_|Hle]; [|lia].
    cbn [fst snd]. split; [done|]. split.
    + apply contains_middle.
    + do 3 apply contains_app_r. exists [], []. by rewrite app_nil_r.
  - intros H Hlen. rewrite (validate_text_not_blank _ _ H).
    destruct (Z.gtb_spec (Z.of_nat (length text)) max_length) as [Hgt|_];
      [lia | done].
Qed.

(** The three cases of [validate_text_cases] on [""], ["x" * 5001] and
    ["hello"], with the default bound. *)
Lemma validate_text_cases_witness :
  validate_text [] default_max_length = (false, lit "Text is empty") /\
  ((validate_text Scenarios.long_text default_max_length).1 = false /\
   contains (lit "5001") (validate_text Scenarios.long_text default_max_length).2 /\
   contains (lit "5000") (validate_text Scenarios.long_text default_max_length).2) /\
  validate_text (lit "hello") default_max_length = (true, lit "Text valid").
Proof.
  split; [|split].
  - apply (validate_text_cases [] default_max_length). constructor.
  - apply (validate_text_cases Scenarios.long_text default_max_length).
    + intros H. apply blank_test in H. vm_compute in H. discriminate.
    + vm_compute. reflexivity.
  - apply (validate_text_cases (lit "hello") default_max_length).
    + intros H. apply blank_test in H. vm_compute in H. discriminate.
    + vm_compute. discriminate.
Defined.

(** C8, as the claim has it, fails on [" " * 5001] with the default bound:
    the length, 5001, exceeds 5000, and the reason is ["Text is empty"],
    which holds neither number. *)
Lemma validate_text_long_blank :
  Z.of_nat (length Scenarios.long_blank_text) > default_max_length /\
  validate_text Scenarios.long_blank_text default_max_length
    = (false, lit "Text is empty") /\
  ~ contains (lit "5001")
      (validate_text Scenarios.long_blank_text default_max_length).2 /\
  ~ contains (lit "5000")
      (validate_text Scenarios.long_blank_text default_max_length).2.
Proof.
  split; [vm_compute; reflexivity|].
  split; [vm_compute; reflexivity|].
  split; intros H; apply str_in_spec in H; vm_compute in H; discriminate.
Qed.

(* ===================================================================== *)
(** * [estimate_audio_duration]                                           *)
(* ===================================================================== *)

Lemma estimate_audio_duration_nonzero text wpm :
  PrimFloat.eqb wpm 0%float = false ->
  estimate_audio_duration text wpm =
    Ret (PrimFloat.mul
           (PrimFloat.div (float_of_len (length (split text))) wpm)
           60%float).
Proof. intros H. unfold estimate_audio_duration. by rewrite H. Qed.

Lemma estimate_audio_duration_zero text wpm :
  PrimFloat.eqb wpm 0%float = true ->
  estimate_audio_duration text wpm = Raise ZeroDivisionError.
Proof. intros H. unfold estimate_audio_duration. by rewrite H. Qed.

(** C9, as the code has it.  For a rate that is not zero the result is
    the number of whitespace-delimited tokens of the text (there is exactly
    one way to read the text as such tokens), divided by the rate and
    multiplied by 60, in binary64 arithmetic; for a rate of zero the
    division raises [ZeroDivisionError].  The function is pure: its result
    depends on nothing but its arguments.  On ["one two three"] at 150
    words per minute it gives the float 1.2. *)
Theorem estimate_audio_duration_formula :
  (forall (text : pystr) (words_per_minute : float),
     PrimFloat.eqb words_per_minute 0%float = false ->
     exists ws,
       tokens text ws /\
       (forall ws', tokens text ws' -> ws' = ws) /\
       estimate_audio_duration text words_per_minute =
         Ret (PrimFloat.mul
                (PrimFloat.div (float_of_len (length ws)) words_per_minute)
                60%float)) /\
  (forall (text : pystr) (words_per_minute : float),
     PrimFloat.eqb words_per_minute 0%float = true ->
     estimate_audio_duration text words_per_minute = Raise ZeroDivisionError) /\
  estimate_audio_duration (lit "one two three") default_words_per_minute
    = Ret 1.2%float.
Proof.
  split; [|split].
  - intros text wpm H. exists (split text). split; [apply split_tokens|].
    split.
    + intros ws' H'. exact (tokens_unique _ _ _ H' (split_tokens text)).
    + by apply estimate_audio_duration_nonzero.
  - exact estimate_audio_duration_zero.
  - vm_compute. reflexivity.
Qed.

(** [estimate_audio_duration_formula] at ["one two three"] and 150: the
    tokens are ["one"], ["two"] and ["three"]. *)
Lemma estimate_audio_duration_formula_witness :
  PrimFloat.eqb default_words_per_minute 0%float = false /\
  exists ws,
    tokens (lit "one two three") ws /\
    (forall ws', tokens (lit "one two three") ws' -> ws' = ws) /\
    estimate_audio_duration (lit "one two three") default_words_per_minute =
      Ret (PrimFloat.mul
             (PrimFloat.div (float_of_len (length ws)) default_words_per_minute)
             60%float).
Proof.
  split; [reflexivity|].
  apply (proj1 estimate_audio_duration_formula). reflexivity.
Defined.

(** C9, as the claim has it, fails at a rate of zero: the division raises
    [ZeroDivisionError] and nothing is returned. *)
Lemma estimate_audio_duration_zero_rate :
  estimate_audio_duration (lit "one two three") 0%float
    = Raise ZeroDivisionError /\
  forall seconds : float,
    estimate_audio_duration (lit "one two three") 0%float <> Ret seconds.
Proof. split; [reflexivity | intros seconds; discriminate]. Qed.

(* ===================================================================== *)
(** * Presets                                                             *)
(* ===================================================================== *)

Lemma presets_dom :
  dom presets = ({[ lit "stable"; lit "balanced"; lit "expressive" ]} : gset pystr).
Proof.
  unfold presets. cbn [list_to_map foldr uncurry fst snd].
  rewrite !dom_insert_L, dom_empty_L. set_solver.
Qed.

Lemma presets_balanced :
  presets !! lit "balanced"
    = Some {| stability := 0.5%float; similarity := 0.75%float |}.
Proof. vm_compute. reflexivity. Qed.

Lemma get_voice_settings_preset_known preset s :
  presets !! preset = Some s -> get_voice_settings_preset preset = s.
Proof. intros H. unfold get_voice_settings_preset. by rewrite H. Qed.

Lemma get_voice_settings_preset_unknown preset :
  preset ∉ dom presets ->
  get_voice_settings_preset preset
    = {| stability := 0.5%float; similarity := 0.75%float |}.
Proof.
  intros H. apply not_elem_of_dom in H.
  unfold get_voice_settings_preset. rewrite H. simpl.
  unfold lookup_total, map_lookup_total. by rewrite presets_balanced.
Qed.

(** C7.  The table has exactly the keys ['stable'], ['balanced'] and
    ['expressive'], with the settings the source lists; a lookup of a key
    of the table gives its entry and a lookup of any other name gives the
    ['balanced'] entry; the lookup is a function of the name alone; and
    [synthesize_with_preset] is [synthesize] at the stability and
    similarity of the entry looked up, with no output path. *)
Theorem preset_lookup :
  dom presets = ({[ lit "stable"; lit "balanced"; lit "expressive" ]} : gset pystr) /\
  get_voice_settings_preset (lit "stable")
    = {| stability := 0.75%float; similarity := 0.75%float |} /\
  get_voice_settings_preset (lit "balanced")
    = {| stability := 0.5%float; similarity := 0.75%float |} /\
  get_voice_settings_preset (lit "expressive")
    = {| stability := 0.3%float; similarity := 0.8%float |} /\
  (forall preset s,
     presets !! preset = Some s -> get_voice_settings_preset preset = s) /\
  (forall preset,
     preset ∉ dom presets ->
     get_voice_settings_preset preset
       = get_voice_settings_preset (lit "balanced")) /\
  (forall self os text voice_id preset,
     synthesize_with_preset self os text voice_id preset =
     synthesize self os text voice_id
       (stability (get_voice_settings_preset preset))
       (similarity (get_voice_settings_preset preset)) None).
Proof.
  split; [exact presets_dom|].
  do 3 (split; [vm_compute; reflexivity|]).
  split; [exact get_voice_settings_preset_known|].
  split; [|reflexivity].
  intros preset H. rewrite (get_voice_settings_preset_unknown _ H).
  vm_compute. reflexivity.
Qed.

(** [preset_lookup] on the name ['dramatic'], which the table lacks: the
    settings are those of ['balanced']. *)
Lemma preset_lookup_witness :
  (lit "dramatic" ∉ dom presets) /\
  get_voice_settings_preset (lit "dramatic")
    = get_voice_settings_preset (lit "balanced").
Proof.
  assert (H : lit "dramatic" ∉ dom presets).
  { rewrite presets_dom. vm_compute. set_solver. }
  split; [exact H|].
  exact (proj1 (proj2 (proj2 (proj2 (proj2 (proj2 preset_lookup))))) _ H).
Defined.

(* ===================================================================== *)
(** * Running the monad                                                   *)
(* ===================================================================== *)

#[global] Arguments lit _ : simpl never.
#[global] Arguments str_of_int _ : simpl never.
#[global] Arguments monolingual : simpl never.
#[global] Arguments path_join _ _ : simpl never.
#[global] Arguments tts_request _ _ _ _ _ _ _ : simpl never.

Lemma log_extend e w : log e w = extend [e] w.
Proof. reflexivity. Qed.

Lemma extend_extend a b w : extend b (extend a w) = extend (a ++ b) w.
Proof. unfold extend; simpl. by rewrite app_assoc. Qed.

Lemma extend_nil w : extend [] w = w.
Proof. destruct w. unfold extend; simpl. by rewrite app_nil_r. Qed.

(** Unfold the monad down to pairs of outcome and world ... *)
Ltac run :=
  unfold post, now, print, yield;
  unfold mbind, M_bind, mret, M_ret;
  unfold bind, ret, try_except, emit, call, raise, write_file;
  cbn beta iota.

(** ... and bring the worlds to the form [extend evs w]. *)
Ltac tidy :=
  rewrite ?log_extend, ?extend_extend;
  cbn [app trace files extend].

Ltac on_post :=
  match goal with
  | |- context [requests_post ?o ?tr ?r] =>
      let resp := fresh "resp" in
      let e := fresh "e" in
      let E := fresh "Epost" in
      destruct (requests_post o tr r) as [resp|e] eqn:E
  end.

Ltac on_convert :=
  match goal with
  | |- context [?convert ?tr ?v ?t monolingual ?st ?si] =>
      let resp := fresh "resp" in
      let e := fresh "e" in
      let E := fresh "Ecall" in
      destruct (convert tr v t monolingual st si) as [resp|e] eqn:E
  end.

Ltac on_write :=
  match goal with
  | |- context [open_write ?o ?tr ?p ?d] =>
      let E := fresh "Ewrite" in
      destruct (open_write o tr p d) eqn:E
  end.

Ltac on_status :=
  match goal with
  | |- context [status_code ?r =? 200] =>
      let E := fresh "Estatus" in
      destruct (Z.eqb_spec (status_code r) 200) as [E|E]
  end.

Lemma yielded_app tr1 tr2 : yielded (tr1 ++ tr2) = yielded tr1 ++ yielded tr2.
Proof. apply omap_app. Qed.

Lemma announced_app tr1 tr2 :
  announced (tr1 ++ tr2) = announced tr1 ++ announced tr2.
Proof. apply omap_app. Qed.

Lemma yielded_yields chunks : yielded (EvYield <$> chunks) = chunks.
Proof. induction chunks as [|c cs IH]; [done|]. cbn. f_equal. exact IH. Qed.

Lemma for_each_yield chunks w :
  for_each chunks yield w = (Ret tt, extend (EvYield <$> chunks) w).
Proof.
  revert w. induction chunks as [|c cs IH]; intros w; simpl.
  - unfold ret. by rewrite extend_nil.
  - run. rewrite IH. by tidy.
Qed.

Lemma for_each_yield_nonempty chunks w :
  for_each chunks (fun chunk => if nonempty chunk then yield chunk else ret tt) w
  = (Ret tt, extend (EvYield <$> List.filter nonempty chunks) w).
Proof.
  revert w. induction chunks as [|c cs IH]; intros w; simpl.
  - unfold ret. by rewrite extend_nil.
  - unfold bind. destruct (nonempty c); run; rewrite IH; by tidy.
Qed.

Lemma filter_nonempty_all chunks :
  Forall (fun c : bytes => c <> []) (List.filter nonempty chunks).
Proof.
  induction chunks as [|c cs IH]; simpl; [constructor|].
  destruct c; simpl; [exact IH|]. by constructor.
Qed.

Lemma concat_filter_nonempty chunks :
  concat (List.filter nonempty chunks) = concat chunks.
Proof.
  induction chunks as [|c cs IH]; simpl; [done|].
  destruct c; simpl; [exact IH|]. by rewrite IH.
Qed.

(* ===================================================================== *)
(** * [synthesize]                                                        *)
(* ===================================================================== *)

Lemma path_join_truthy dir name : truthy (Some (path_join dir name)) = true.
Proof. unfold path_join. by destruct dir. Qed.

(** The REST fallback never raises; it sends its request first, announces
    no text and opens no file. *)
Lemma rest_generate_bytes_run self os text v st si model w :
  exists audio evs,
    _rest_generate_bytes self os text v st si model w =
      (Ret audio,
       extend (EvPost (tts_request self text v st si model false) :: evs) w) /\
    announced evs = [] /\
    (audio = None <->
     match requests_post os (trace w)
             (tts_request self text v st si model false) with
     | Ret resp => status_code resp <> 200
     | Raise _ => True
     end) /\
    (audio = None -> evs <> []).
Proof.
  unfold _rest_generate_bytes. run. tidy. on_post.
  - on_status; tidy.
    + exists (Some (content resp)), []. repeat split; done.
    + eexists None, [_]. repeat split; done.
  - tidy. eexists None, [_]. repeat split; done.
Qed.

(** [synthesize] always returns: whatever the client, the endpoint and the
    disk do, the caller gets a path or [None], never an exception.  The
    events it leaves start with its three lines and its first request;
    the only text it announces is its own; and a path it returns, when one
    was passed in, is that one. *)
Lemma synthesize_total self os text v st si out w :
  exists r evs fs,
    synthesize self os text v st si out w =
      (Ret r,
       {| trace := trace w ++ EvPrint MsgSynthesizing :: EvPrint (MsgText text)
                     :: EvPrint (MsgVoiceId v)
                     :: first_attempt self text v st si :: evs;
          files := fs |}) /\
    announced evs = [] /\
    (forall p p0, r = Some p -> out = Some p0 -> p = p0).
Proof.
  unfold synthesize, first_attempt, _rest_generate_bytes.
  destruct (text_to_speech_convert (client self)) as [convert|];
    run; tidy; [on_convert; [destruct (extract_bytes resp)|]|].
  all: repeat first [on_post | on_status]; tidy.
  all: destruct out as [p0|]; tidy.
  all: repeat on_write; tidy.
  all: unfold extend; cbn [trace files]; rewrite <- ?app_assoc; cbn [app].
  all: eexists _, _, _; split; [reflexivity|]; split; [reflexivity|].
  all: intros; congruence.
Qed.

(** C1, as the code has it.  [synthesize] does not look at its text before
    it goes to the provider: for every text, empty, blank or over any
    length bound included, the call prints its three lines and then sends
    a request with that text, the structured call when the client has
    [convert] and the REST request when it has not.  [validate_text] is a
    helper of its own that [synthesize] does not call. *)
Theorem synthesize_sends_any_text self os text voice_id stab sim out w :
  is_network (first_attempt self text voice_id stab sim) = true /\
  exists rest,
    trace (synthesize self os text voice_id stab sim out w).2 =
      trace w ++
      [EvPrint MsgSynthesizing; EvPrint (MsgText text);
       EvPrint (MsgVoiceId voice_id);
       first_attempt self text voice_id stab sim] ++ rest.
Proof.
  split.
  - unfold first_attempt. by destruct (text_to_speech_convert (client self)).
  - destruct (synthesize_total self os text voice_id stab sim out w)
      as (r & evs & fs & -> & _ & _).
    by exists evs.
Qed.

(** C1, as the claim has it, fails on the empty text.  With a client that
    has [convert], the structured call is made and its audio is saved;
    with a client that has not, the REST request is sent and its audio is
    saved.  Neither call is rejected. *)
Lemma synthesize_empty_text_reaches_provider :
  (validate_text [] default_max_length).1 = false /\
  (let run := synthesize (Scenarios.tts Scenarios.converting) Scenarios.serving
                [] Scenarios.voice default_stability default_similarity None
                Scenarios.fresh in
   run.1 = Ret (Some (lit "assets/outputs/output_20240101_120000.mp3")) /\
   List.filter is_network (trace run.2) =
     [EvConvert Scenarios.voice [] monolingual
        default_stability default_similarity] /\
   files run.2 !! lit "assets/outputs/output_20240101_120000.mp3"
     = Some Scenarios.audio_a) /\
  (let run := synthesize (Scenarios.tts Scenarios.without_sdk) Scenarios.serving
                [] Scenarios.voice default_stability default_similarity None
                Scenarios.fresh in
   run.1 = Ret (Some (lit "assets/outputs/output_20240101_120000.mp3")) /\
   List.filter is_network (trace run.2) =
     [EvPost (tts_request (Scenarios.tts Scenarios.without_sdk) []
                Scenarios.voice default_stability default_similarity
                monolingual false)] /\
   files run.2 !! lit "assets/outputs/output_20240101_120000.mp3"
     = Some Scenarios.audio_b).
Proof. repeat split; vm_compute; reflexivity. Qed.

Lemma extract_bytes_raising chunks e :
  extract_bytes (RespIterable {| it_chunks := chunks; it_error := Some e |})
    = None.
Proof. reflexivity. Qed.

(** C2, as the code has it.  When the structured call returns and no bytes
    can be extracted from what it returned, [synthesize] prints that no
    audio was received and returns [None] at once: the events of the call
    are its three lines, the structured call and that line, so no REST
    request is sent; no exception reaches the caller and no file is
    touched. *)
Theorem synthesize_unusable_response
    self os convert resp text voice_id stab sim out w :
  text_to_speech_convert (client self) = Some convert ->
  convert
    (trace w ++ [EvPrint MsgSynthesizing; EvPrint (MsgText text);
                 EvPrint (MsgVoiceId voice_id)])
    voice_id text monolingual stab sim = Ret resp ->
  extract_bytes resp = None ->
  let evs :=
    [EvPrint MsgSynthesizing; EvPrint (MsgText text);
     EvPrint (MsgVoiceId voice_id);
     EvConvert voice_id text monolingual stab sim; EvPrint MsgNoAudio] in
  synthesize self os text voice_id stab sim out w = (Ret None, extend evs w) /\
  List.filter is_post evs = [] /\
  files (extend evs w) = files w.
Proof.
  intros Hcap Hcall Hx evs. split; [|done].
  unfold synthesize. rewrite Hcap. run. tidy.
  rewrite Hcall, Hx. by tidy.
Qed.

(** [synthesize_unusable_response] on a client whose [convert] returns an
    iterable that raises when it is iterated. *)
Lemma synthesize_unusable_response_witness :
  let evs :=
    [EvPrint MsgSynthesizing; EvPrint (MsgText (lit "hello"));
     EvPrint (MsgVoiceId Scenarios.voice);
     EvConvert Scenarios.voice (lit "hello") monolingual
       default_stability default_similarity;
     EvPrint MsgNoAudio] in
  synthesize (Scenarios.tts Scenarios.interrupted) Scenarios.serving
    (lit "hello") Scenarios.voice default_stability default_similarity None
    Scenarios.fresh = (Ret None, extend evs Scenarios.fresh) /\
  List.filter is_post evs = [] /\
  files (extend evs Scenarios.fresh) = files Scenarios.fresh.
Proof.
  eapply (synthesize_unusable_response
            (Scenarios.tts Scenarios.interrupted) Scenarios.serving);
    reflexivity.
Defined.

(** C2, as the claim has it, fails on a client whose [convert] returns an
    iterable that raises when it is iterated, in front of a REST endpoint
    that would have served audio: the call returns [None] and the trace
    holds no REST request. *)
Lemma synthesize_skips_rest_fallback :
  let run := synthesize (Scenarios.tts Scenarios.interrupted) Scenarios.serving
               (lit "hello") Scenarios.voice default_stability
               default_similarity None Scenarios.fresh in
  extract_bytes
    (RespIterable {| it_chunks := []; it_error := Some Scenarios.provider_error |})
    = None /\
  requests_post Scenarios.serving []
    (tts_request (Scenarios.tts Scenarios.interrupted) (lit "hello")
       Scenarios.voice default_stability default_similarity monolingual false)
    = Ret (Scenarios.ok_response Scenarios.audio_b [Scenarios.audio_b]) /\
  run.1 = Ret None /\
  List.filter is_post (trace run.2) = [] /\
  List.filter is_network (trace run.2) =
    [EvConvert Scenarios.voice (lit "hello") monolingual
       default_stability default_similarity].
Proof. repeat split; vm_compute; reflexivity. Qed.

(** The line printed when no audio was obtained says so. *)
Lemma render_no_audio : contains (lit "no audio received") (render MsgNoAudio).
Proof. apply str_in_spec. vm_compute. reflexivity. Qed.

(** C4.  When a call to [synthesize] obtains no audio (the structured
    call returns a response that holds no bytes; or the REST request, sent
    because the client lacks [convert] or the structured call raised,
    raises or is answered with a status other than 200), it returns
    [None], not an exception; the last thing it does is print that no
    audio was received; it opens no file and leaves the file store as it
    was. *)
Theorem synthesize_no_audio self os text voice_id stab sim out w :
  obtains_no_audio self os (entry w text voice_id) text voice_id stab sim ->
  exists evs,
    synthesize self os text voice_id stab sim out w = (Ret None, extend evs w) /\
    last evs = Some (EvPrint MsgNoAudio) /\
    List.filter is_open evs = [] /\
    files (synthesize self os text voice_id stab sim out w).2 = files w.
Proof.
  intros Hnone.
  enough (exists evs,
    synthesize self os text voice_id stab sim out w = (Ret None, extend evs w) /\
    last evs = Some (EvPrint MsgNoAudio) /\
    List.filter is_open evs = []) as (evs & E & Hlast & Hopen).
  { exists evs. by rewrite E. }
  revert Hnone.
  unfold synthesize, obtains_no_audio, rest_fails_at, _rest_generate_bytes,
    entry.
  destruct (text_to_speech_convert (client self)) as [convert|];
    run; tidy.
  - on_convert; tidy; intros Hnone.
    + rewrite Hnone. tidy. by eexists.
    + rewrite <- app_assoc in Hnone. cbn [app] in Hnone. revert Hnone.
      on_post; intros Hnone; [on_status; [done|]|]; tidy; by eexists.
  - on_post; intros Hnone; [on_status; [done|]|]; tidy; by eexists.
Qed.

(** [synthesize_no_audio] on a client without the structured capability,
    in front of an endpoint that answers 500. *)
Lemma synthesize_no_audio_witness :
  exists evs,
    synthesize (Scenarios.tts Scenarios.without_sdk) Scenarios.failing
      (lit "hello") Scenarios.voice default_stability default_similarity None
      Scenarios.fresh = (Ret None, extend evs Scenarios.fresh) /\
    last evs = Some (EvPrint MsgNoAudio) /\
    List.filter is_open evs = [] /\
    files (synthesize (Scenarios.tts Scenarios.without_sdk) Scenarios.failing
             (lit "hello") Scenarios.voice default_stability
             default_similarity None Scenarios.fresh).2
      = files Scenarios.fresh.
Proof.
  apply (synthesize_no_audio (Scenarios.tts Scenarios.without_sdk)
           Scenarios.failing).
  simpl. discriminate.
Defined.

(** No file is opened only then: a call that opens no file has obtained
    no audio. *)
Lemma synthesize_no_audio_only self os text voice_id stab sim out w :
  exists evs,
    trace (synthesize self os text voice_id stab sim out w).2
      = trace w ++ evs /\
    (List.filter is_open evs = [] ->
     obtains_no_audio self os (entry w text voice_id) text voice_id stab sim).
Proof.
  unfold synthesize, obtains_no_audio, rest_fails_at, _rest_generate_bytes,
    entry.
  destruct (text_to_speech_convert (client self)) as [convert|];
    run; tidy; [on_convert; tidy; [destruct (extract_bytes resp) eqn:Ebytes|]|].
  all: rewrite <- ?app_assoc; cbn [app].
  all: repeat first [on_post | on_status]; tidy.
  all: destruct out as [p0|]; tidy.
  all: repeat on_write; tidy.
  all: cbn [snd trace extend]; rewrite <- ?app_assoc; cbn [app].
  all: eexists; (split; [reflexivity|]); cbn; done.
Qed.

(** C4, as the claim has it, fails on its last clause.  A client whose
    [convert] returns two bytes of audio, a disk that takes one byte and
    then raises: the call returns [None], and the file it opened stays
    behind with that one byte in it. *)
Lemma synthesize_leaves_partial_file :
  let run := synthesize (Scenarios.tts Scenarios.converting)
               Scenarios.disk_full (lit "hello") Scenarios.voice
               default_stability default_similarity (Some (lit "out.mp3"))
               Scenarios.fresh in
  extract_bytes (RespBytes Scenarios.audio_a) = Some [Byte.x41; Byte.x41] /\
  files Scenarios.fresh !! lit "out.mp3" = None /\
  run.1 = Ret None /\
  opened (trace run.2) = [lit "out.mp3"] /\
  files run.2 !! lit "out.mp3" = Some [Byte.x41].
Proof. repeat split; vm_compute; reflexivity. Qed.

(** Nor is a body of no bytes a failure: an endpoint that answers 200
    with an empty body gets its empty body saved, and the path returned. *)
Lemma synthesize_saves_empty_body :
  let run := synthesize (Scenarios.tts Scenarios.without_sdk)
               Scenarios.serving_nothing (lit "hello") Scenarios.voice
               default_stability default_similarity (Some (lit "out.mp3"))
               Scenarios.fresh in
  run.1 = Ret (Some (lit "out.mp3")) /\
  files run.2 !! lit "out.mp3" = Some [].
Proof. repeat split; vm_compute; reflexivity. Qed.

(* ===================================================================== *)
(** * [synthesize_streaming]                                              *)
(* ===================================================================== *)

(** Fixed-size blocks put together again are the body. *)
Lemma concat_blocks_upto fuel n (body : bytes) :
  (0 < n)%nat -> (length body <= fuel)%nat ->
  concat (blocks_upto fuel n body) = body.
Proof.
  intros Hn. revert body.
  induction fuel as [|fuel IH]; intros body Hlen.
  - destruct body; [done | simpl in Hlen; lia].
  - destruct body as [|b body]; [done|].
    cbn [blocks_upto concat]. rewrite IH.
    + apply take_drop.
    + rewrite length_drop. simpl in *. lia.
Qed.

Lemma concat_blocks n (body : bytes) :
  (0 < n)%nat -> concat (blocks n body) = body.
Proof. intros Hn. by apply concat_blocks_upto. Qed.

(** The structured attempt: it never raises into the generator, it leaves
    the events [sdk_events] and it reports whether the stream ran to its
    end. *)
Lemma sdk_streaming_run self text v st si w :
  sdk_streaming self text v st si w =
    (Ret (stream_completes self (trace w) text v st si),
     extend (sdk_events self (trace w) text v st si) w).
Proof.
  unfold sdk_streaming, stream_completes, sdk_events, streamed, stream_answer.
  destruct (text_to_speech_stream (client self)) as [stream|].
  - run. tidy.
    destruct (stream (trace w) v text monolingual st si) as [it|e]; tidy.
    + unfold for_chunks. run. rewrite for_each_yield. tidy.
      by destruct (it_error it); tidy.
    + done.
  - unfold ret. by rewrite extend_nil.
Qed.

(** The REST fallback: the request, then the non-empty chunks among those
    delivered, then at most a line about the status. *)
Lemma rest_streaming_run self os text v st si w :
  exists o tail,
    rest_streaming self os text v st si w =
      (o,
       extend
         (EvPost (tts_request self text v st si monolingual true)
            :: (EvYield <$> List.filter nonempty
                              (delivered self os (trace w) text v st si))
            ++ tail) w) /\
    yielded tail = [] /\ List.filter is_network tail = [].
Proof.
  unfold rest_streaming, delivered. run. tidy. on_post.
  - on_status; tidy.
    + unfold for_chunks. run. rewrite for_each_yield_nonempty. tidy.
      destruct (it_error (iter_content resp chunk_size));
        eexists _, []; rewrite app_nil_r; done.
    + by eexists _, [_].
  - by eexists _, [].
Qed.

(** The generator as a whole: it never raises; its events are those of
    the structured attempt followed, unless that attempt ran to its end,
    by those of the REST fallback. *)
Lemma synthesize_streaming_run self os text v st si w :
  exists tail,
    synthesize_streaming self os text v st si w =
      (Ret tt,
       extend
         (sdk_events self (trace w) text v st si ++
          if stream_completes self (trace w) text v st si then []
          else
            EvPost (tts_request self text v st si monolingual true)
              :: (EvYield <$> List.filter nonempty
                    (delivered self os
                       (trace w ++ sdk_events self (trace w) text v st si)
                       text v st si))
              ++ tail) w) /\
    yielded tail = [] /\ List.filter is_network tail = [].
Proof.
  unfold synthesize_streaming.
  unfold mbind, M_bind, bind, try_except. rewrite sdk_streaming_run.
  destruct (stream_completes self (trace w) text v st si).
  - exists []. by rewrite app_nil_r.
  - destruct (rest_streaming_run self os text v st si
                (extend (sdk_events self (trace w) text v st si) w))
      as (o & tail & -> & Hy & Hn).
    cbn [trace extend]. destruct o as [[]|e]; tidy.
    + by exists tail.
    + run. tidy. exists (tail ++ [EvPrint (MsgStreamingFailed e)]).
      rewrite yielded_app, List.filter_app, Hy, Hn.
      split; [|done]. do 2 f_equal.
      rewrite <- app_assoc. cbn [app]. by rewrite <- app_assoc.
Qed.

(** What the consumer receives: the chunks of the structured stream and,
    unless that stream ran to its end, the non-empty chunks of the REST
    response after them. *)
Lemma synthesize_streaming_yielded self os text v st si w :
  yielded (trace (synthesize_streaming self os text v st si w).2) =
    yielded (trace w) ++ streamed self (trace w) text v st si ++
    if stream_completes self (trace w) text v st si then []
    else List.filter nonempty
           (delivered self os
              (trace w ++ sdk_events self (trace w) text v st si)
              text v st si).
Proof.
  destruct (synthesize_streaming_run self os text v st si w)
    as (tail & -> & Hy & _).
  cbn [snd trace extend]. rewrite !yielded_app. f_equal. f_equal.
  - unfold sdk_events, streamed.
    destruct (stream_answer self (trace w) text v st si) as [[it|e]|];
      [cbn; by rewrite yielded_yields | done..].
  - destruct (stream_completes self (trace w) text v st si); [done|].
    cbn. by rewrite yielded_app, yielded_yields, Hy, app_nil_r.
Qed.

(** When the structured stream runs to its end, the consumer receives its
    chunks and nothing else, and no REST request is sent. *)
Lemma streaming_structured_only self os text v st si w :
  stream_completes self (trace w) text v st si = true ->
  synthesize_streaming self os text v st si w =
    (Ret tt, extend (sdk_events self (trace w) text v st si) w) /\
  List.filter is_post (sdk_events self (trace w) text v st si) = [] /\
  yielded (sdk_events self (trace w) text v st si)
    = streamed self (trace w) text v st si.
Proof.
  intros Hc.
  destruct (synthesize_streaming_run self os text v st si w) as (tail & -> & _).
  rewrite Hc, app_nil_r. split; [done|].
  unfold sdk_events, streamed.
  destruct (stream_answer self (trace w) text v st si) as [[it|e]|]; cbn;
    try done.
  rewrite yielded_yields. split; [|done].
  induction (it_chunks it) as [|c cs IH]; [done | exact IH].
Qed.

(** When the structured attempt delivers nothing (the client lacks
    [stream], or the call raises, or the stream raises before its first
    chunk) and the REST request is answered with 200 and a body that
    arrives in full, in whatever chunks, the consumer receives exactly
    that body. *)
Lemma streaming_fallback_only self os text v st si w resp :
  stream_completes self (trace w) text v st si = false ->
  streamed self (trace w) text v st si = [] ->
  requests_post os (trace w ++ sdk_events self (trace w) text v st si)
    (tts_request self text v st si monolingual true) = Ret resp ->
  status_code resp = 200 ->
  concat (it_chunks (iter_content resp chunk_size)) = content resp ->
  exists chunks,
    yielded (trace (synthesize_streaming self os text v st si w).2)
      = yielded (trace w) ++ chunks /\
    concat chunks = content resp.
Proof.
  intros Hc Hs Hpost Hst Hbody.
  rewrite synthesize_streaming_yielded, Hc, Hs. cbn [app].
  eexists. split; [reflexivity|].
  rewrite concat_filter_nonempty. unfold delivered.
  by rewrite Hpost, Hst.
Qed.

(** C3 at an interrupted stream.  The structured stream delivers [audio_a]
    and then raises; the generator turns to the REST endpoint, which
    serves [audio_b]: the consumer has received a chunk of the structured
    attempt before the REST request and receives one of the REST attempt
    after it. *)
Theorem streaming_switches_after_a_chunk :
  trace (synthesize_streaming (Scenarios.tts Scenarios.interrupted)
           Scenarios.serving (lit "hello") Scenarios.voice
           default_stability default_similarity Scenarios.fresh).2
  = [EvStream Scenarios.voice (lit "hello") monolingual
       default_stability default_similarity;
     EvYield Scenarios.audio_a;
     EvPost (tts_request (Scenarios.tts Scenarios.interrupted) (lit "hello")
               Scenarios.voice default_stability default_similarity
               monolingual true);
     EvYield Scenarios.audio_b].
Proof. vm_compute. reflexivity. Qed.

(** C5 at an interrupted stream.  The generator takes the REST fallback
    and the endpoint answers 200 with the body [audio_b], yet what the
    consumer receives, put together, is [audio_a] followed by [audio_b]. *)
Theorem streaming_fallback_after_a_chunk :
  let run := synthesize_streaming (Scenarios.tts Scenarios.interrupted)
               Scenarios.serving (lit "hello") Scenarios.voice
               default_stability default_similarity Scenarios.fresh in
  requests_post Scenarios.serving
    [EvStream Scenarios.voice (lit "hello") monolingual
       default_stability default_similarity;
     EvYield Scenarios.audio_a]
    (tts_request (Scenarios.tts Scenarios.interrupted) (lit "hello")
       Scenarios.voice default_stability default_similarity monolingual true)
    = Ret (Scenarios.ok_response Scenarios.audio_b [Scenarios.audio_b]) /\
  yielded (trace run.2) = [Scenarios.audio_a; Scenarios.audio_b] /\
  concat (yielded (trace run.2)) = Scenarios.audio_a ++ Scenarios.audio_b /\
  concat (yielded (trace run.2)) <> Scenarios.audio_b.
Proof. repeat split; try (vm_compute; reflexivity). vm_compute. discriminate. Qed.

(** C10.  Every chunk the generator yields from its REST fallback is
    non-empty.  The events of a run are those of the structured attempt
    followed by those of the fallback; the chunks yielded among the
    latter are the chunks the transport delivered with the empty ones
    left out, none of them is empty, and put together they are what the
    delivered chunks are put together. *)
Theorem http_fallback_yields_nonempty self os text voice_id stab sim w :
  let sdk := sdk_events self (trace w) text voice_id stab sim in
  let chunks :=
    if stream_completes self (trace w) text voice_id stab sim then []
    else delivered self os (trace w ++ sdk) text voice_id stab sim in
  exists http,
    trace (synthesize_streaming self os text voice_id stab sim w).2
      = trace w ++ sdk ++ http /\
    List.filter is_post sdk = [] /\
    yielded http = List.filter nonempty chunks /\
    Forall (fun c => c <> []) (yielded http) /\
    concat (yielded http) = concat chunks.
Proof.
  cbv zeta.
  destruct (synthesize_streaming_run self os text voice_id stab sim w)
    as (tail & -> & Hy & _).
  cbn [snd trace extend]. eexists. split; [reflexivity|].
  split.
  { unfold sdk_events.
    destruct (stream_answer self (trace w) text voice_id stab sim); [|done].
    cbn. induction (streamed self (trace w) text voice_id stab sim)
      as [|c cs IH]; [done | exact IH]. }
  destruct (stream_completes self (trace w) text voice_id stab sim).
  - cbn. repeat split. constructor.
  - cbn. rewrite yielded_app, yielded_yields, Hy, app_nil_r.
    split; [done|]. split.
    + apply filter_nonempty_all.
    + apply concat_filter_nonempty.
Qed.

(* ===================================================================== *)
(** * [batch_synthesize]                                                  *)
(* ===================================================================== *)

Lemma successes_cons r rs :
  successes (r :: rs) =
    match r with Some path => path :: successes rs | None => successes rs end.
Proof. by destruct r. Qed.

(** The loop with its accumulator is the calls one after the other: what
    it returns is what it had, followed by the paths the calls returned. *)
Lemma batch_loop_run self os n texts v st si :
  forall i acc w,
    batch_loop self os n i texts v st si acc w =
      (Ret (acc ++ successes (synthesize_each self os n i texts v st si w).1),
       (synthesize_each self os n i texts v st si w).2).
Proof.
  induction texts as [|text texts IH]; intros i acc w.
  - cbn. unfold ret. by rewrite app_nil_r.
  - cbn [batch_loop synthesize_each]. run. tidy.
    destruct (synthesize_total self os text v st si
                (Some (batch_path self i
                         (strftime_now os
                            (trace w ++ [EvPrint (MsgBatchProgress (i + 1) n)]))))
                (extend [EvPrint (MsgBatchProgress (i + 1) n); EvNow] w))
      as (r & evs & fs & E & _ & Hpath).
    unfold batch_path in *. rewrite E. rewrite IH.
    destruct (synthesize_each self os n (S i) texts v st si _) as [rs w2].
    cbn [fst snd]. rewrite successes_cons. destruct r as [path|]; [|done].
    rewrite (Hpath path _ eq_refl eq_refl), path_join_truthy.
    by rewrite <- app_assoc.
Qed.

(** The calls leave the texts on the trace one by one, in the order of the
    list, and give one result per text. *)
Lemma synthesize_each_trace self os n texts v st si :
  forall i w,
    length (synthesize_each self os n i texts v st si w).1 = length texts /\
    exists evs,
      trace (synthesize_each self os n i texts v st si w).2 = trace w ++ evs /\
      announced evs = texts.
Proof.
  induction texts as [|text texts IH]; intros i w.
  - cbn. split; [done|]. exists []. by rewrite app_nil_r.
  - cbn [synthesize_each].
    destruct (synthesize_total self os text v st si
                (Some (batch_path self i
                         (strftime_now os
                            (trace w ++ [EvPrint (MsgBatchProgress (i + 1) n)]))))
                (extend [EvPrint (MsgBatchProgress (i + 1) n); EvNow] w))
      as (r & evs & fs & E & Hann & _).
    rewrite E.
    match goal with
    | |- context [synthesize_each self os n (S i) texts v st si ?w1] =>
        destruct (IH (S i) w1) as (Hlen & evs' & Htr & Hann');
        destruct (synthesize_each self os n (S i) texts v st si w1)
          as [rs w2] eqn:Erest
    end.
    cbn [fst snd length] in *. split; [by f_equal|].
    rewrite Htr. cbn [trace extend]. rewrite <- !app_assoc. cbn [app].
    eexists. split; [reflexivity|].
    unfold first_attempt.
    destruct (text_to_speech_convert (client self)); cbn;
      by rewrite announced_app, Hann, Hann'.
Qed.

(** C6.  [batch_synthesize] is one call of [synthesize] per text, each
    made in the world the call before it left, in the order of the list:
    the trace shows the texts entering [synthesize] in that order, once
    each.  What it returns is the paths those calls returned, in order,
    the failed calls left out, so its length is the number of calls that
    succeeded. *)
Theorem batch_synthesize_sequential self os texts voice_id stab sim w :
  let calls :=
    synthesize_each self os (length texts) 0 texts voice_id stab sim w in
  batch_synthesize self os texts voice_id stab sim w
    = (Ret (successes calls.1), calls.2) /\
  length calls.1 = length texts /\
  length (successes calls.1)
    = length (List.filter (fun r : option pystr => bool_decide (is_Some r))
                calls.1) /\
  exists evs, trace calls.2 = trace w ++ evs /\ announced evs = texts.
Proof.
  cbv zeta. unfold batch_synthesize. rewrite batch_loop_run. cbn [app].
  split; [done|].
  destruct (synthesize_each_trace self os (length texts) texts voice_id
              stab sim 0%nat w) as (Hlen & Htrace).
  split; [done|]. split; [|done].
  clear. induction (synthesize_each _ _ _ _ _ _ _ _ _).1 as [|r rs IH];
    [done|].
  rewrite successes_cons. destruct r; cbn; by rewrite IH.
Qed.

(** The example of the specification: of three texts, the second fails
    (the client has no [convert] and the endpoint answers 500 for it); the
    result is the paths of the first and the third. *)
Lemma batch_synthesize_skips_failure :
  (batch_synthesize (Scenarios.tts Scenarios.without_sdk)
     Scenarios.serving_but_two [lit "one"; lit "two"; lit "three"]
     Scenarios.voice default_stability default_similarity Scenarios.fresh).1
  = Ret [lit "assets/outputs/batch_1_20240101_120000.mp3";
         lit "assets/outputs/batch_3_20240101_120000.mp3"].
Proof. vm_compute. reflexivity. Qed.

(** A body of 10000 bytes sent through [iter_content] in blocks of 4096 to
    a client without [stream]: the consumer receives three chunks, which
    put together are the body. *)
Lemma streaming_fallback_in_blocks :
  let body := replicate 10000 Byte.x41 in
  let os :=
    {| requests_post := fun _ _ =>
         Ret (Scenarios.ok_response body (blocks (Z.to_nat chunk_size) body));
       strftime_now := fun _ => [];
       open_write := fun _ _ _ => Written |} in
  let run := synthesize_streaming (Scenarios.tts Scenarios.without_sdk) os
               (lit "hello") Scenarios.voice default_stability
               default_similarity Scenarios.fresh in
  length <$> yielded (trace run.2) = [4096; 4096; 1808]%nat /\
  concat (yielded (trace run.2)) = body.
Proof. split; vm_compute; reflexivity. Qed.

(* ===================================================================== *)
(** * More on [synthesize] and [_rest_generate_bytes]                     *)
(* ===================================================================== *)

Lemma opened_app tr1 tr2 : opened (tr1 ++ tr2) = opened tr1 ++ opened tr2.
Proof. apply omap_app. Qed.

(** What a call does to the disk and to the network, whatever happens. *)
Lemma synthesize_effect self os text v st si out w :
  exists r evs fs,
    synthesize self os text v st si out w =
      (Ret r, {| trace := trace w ++ evs; files := fs |}) /\
    ((opened evs = [] /\ r = None /\ fs = files w) \/
     (exists p,
        opened evs = [p] /\
        match out with
        | Some p0 => p = p0
        | None => exists tr, p = default_path self (strftime_now os tr)
        end /\
        ((exists data, r = Some p /\ fs = <[p := data]> (files w)) \/
         (r = None /\ fs = files w) \/
         (exists partial, r = None /\ fs = <[p := partial]> (files w))))) /\
    match text_to_speech_convert (client self) with
    | Some _ =>
        List.filter is_network evs = [convert_event text v st si] \/
        List.filter is_network evs =
          [convert_event text v st si;
           post_event self text v st si monolingual false]
    | None =>
        List.filter is_network evs
          = [post_event self text v st si monolingual false]
    end.
Proof.
  unfold synthesize, _rest_generate_bytes.
  destruct (text_to_speech_convert (client self)) as [convert|];
    run; tidy; [on_convert; [destruct (extract_bytes resp)|]|].
  all: repeat first [on_post | on_status]; tidy.
  all: destruct out as [p0|]; tidy.
  all: repeat on_write; tidy.
  all: unfold extend; cbn [trace files]; rewrite <- ?app_assoc; cbn [app].
  all: eexists _, _, _; split; [reflexivity|].
  all: cbn.
  all: (split; [|by auto]).
  all: try (left; done).
  all: right; eexists; split; [reflexivity|]; split;
       [first [reflexivity | eexists; reflexivity]|].
  all: eauto 6.
Qed.

(** X1.  A call to [synthesize] never raises and opens at most one file
    for writing.  The file it opens, whether the call then succeeds or
    fails, is the path it was given or, when it was given none, its
    default path [output_dir/output_<timestamp>.mp3]; it returns that path
    and nothing else, and only when the file is there; every other file of
    the store is left as it was. *)
Theorem synthesize_touches_one_file self os text voice_id stab sim out w :
  exists r evs,
    (synthesize self os text voice_id stab sim out w).1 = Ret r /\
    trace (synthesize self os text voice_id stab sim out w).2
      = trace w ++ evs /\
    ((opened evs = [] /\ r = None) \/
     (exists p,
        opened evs = [p] /\
        match out with
        | Some p0 => p = p0
        | None => exists tr, p = default_path self (strftime_now os tr)
        end /\
        (r = None \/
         (r = Some p /\
          is_Some (files (synthesize self os text voice_id stab sim out w).2
                     !! p))))) /\
    (forall q, q ∉ opened evs ->
       files (synthesize self os text voice_id stab sim out w).2 !! q
         = files w !! q).
Proof.
  destruct (synthesize_effect self os text voice_id stab sim out w)
    as (r & evs & fs & -> & Hdisk & _).
  exists r, evs. cbn [fst snd trace files].
  split; [done|]. split; [done|].
  destruct Hdisk as [(Ho & -> & ->) | (p & Ho & Hp & Hfs)].
  - split; [by left|]. done.
  - rewrite Ho. split.
    + right. exists p. split; [done|]. split; [done|].
      destruct Hfs as [(data & -> & ->) | [[-> _] | (? & -> & _)]];
        [right|by left..].
      split; [done|]. rewrite lookup_insert_eq. by eexists.
    + intros q Hq. apply not_elem_of_cons in Hq as [Hq _].
      destruct Hfs as [(data & _ & ->) | [[_ ->] | (partial & _ & ->)]];
        [|done|]; by rewrite lookup_insert_ne.
Qed.

(** X2.  A call to [synthesize] never sends a request twice: it makes the
    structured call once when the client has [convert], and the REST
    request at most once, after the structured call when there was one;
    both carry the caller's text, voice, stability and similarity as
    given, and the model they name is one [get_available_models] lists. *)
Theorem synthesize_requests self os text voice_id stab sim out w :
  exists evs,
    trace (synthesize self os text voice_id stab sim out w).2
      = trace w ++ evs /\
    match text_to_speech_convert (client self) with
    | Some _ =>
        List.filter is_network evs = [EvConvert voice_id text monolingual stab sim] \/
        List.filter is_network evs =
          [EvConvert voice_id text monolingual stab sim;
           EvPost (tts_request self text voice_id stab sim monolingual false)]
    | None =>
        List.filter is_network evs
          = [EvPost (tts_request self text voice_id stab sim monolingual false)]
    end /\
    monolingual ∈ get_available_models.
Proof.
  destruct (synthesize_effect self os text voice_id stab sim out w)
    as (r & evs & fs & -> & _ & Hnet).
  exists evs. split; [done|]. split; [exact Hnet|].
  apply list_elem_of_here.
Qed.

(** X3.  When the structured call returns and bytes can be extracted from
    its response (its [content], the buffer itself, or its chunks joined
    in order), and the disk takes the write, [synthesize] saves exactly
    those bytes at the path it returns, and sends no REST request. *)
Theorem synthesize_saves_structured_audio
    self os convert resp data text voice_id stab sim out w :
  text_to_speech_convert (client self) = Some convert ->
  convert (entry w text voice_id) voice_id text monolingual stab sim
    = Ret resp ->
  extract_bytes resp = Some data ->
  (forall tr path, open_write os tr path data = Written) ->
  exists p evs,
    synthesize self os text voice_id stab sim out w =
      (Ret (Some p),
       {| trace := trace w ++ evs; files := <[p := data]> (files w) |}) /\
    List.filter is_post evs = [] /\
    match out with
    | Some p0 => p = p0
    | None => exists tr, p = default_path self (strftime_now os tr)
    end.
Proof.
  intros Hcap Hcall Hx Hdisk. unfold entry in Hcall.
  unfold synthesize. rewrite Hcap. run. tidy. rewrite Hcall, Hx.
  destruct out as [p0|]; tidy; rewrite Hdisk; tidy;
    unfold extend; cbn [trace files]; rewrite <- ?app_assoc; cbn [app];
    eexists _, _; (split; [reflexivity|]); (split; [reflexivity|]);
    [reflexivity | eexists; reflexivity].
Qed.

(** X4.  When the client lacks [convert] or the structured call raises,
    and the REST request is answered with 200, and the disk takes the
    write, [synthesize] saves exactly the body of that answer at the path
    it returns. *)
Theorem synthesize_saves_rest_audio
    self os resp text voice_id stab sim out w :
  match text_to_speech_convert (client self) with
  | Some convert =>
      exists e,
        convert (entry w text voice_id) voice_id text monolingual stab sim
          = Raise e
  | None => True
  end ->
  (forall tr,
     requests_post os tr (tts_request self text voice_id stab sim monolingual false)
       = Ret resp) ->
  status_code resp = 200 ->
  (forall tr path, open_write os tr path (content resp) = Written) ->
  exists p evs,
    synthesize self os text voice_id stab sim out w =
      (Ret (Some p),
       {| trace := trace w ++ evs;
          files := <[p := content resp]> (files w) |}) /\
    match out with
    | Some p0 => p = p0
    | None => exists tr, p = default_path self (strftime_now os tr)
    end.
Proof.
  intros Hcap Hpost Hst Hdisk. unfold entry in Hcap.
  unfold synthesize, _rest_generate_bytes.
  destruct (text_to_speech_convert (client self)) as [convert|].
  - destruct Hcap as [e Hcall]. run. tidy. rewrite Hcall. tidy.
    rewrite Hpost, Hst. cbn [Z.eqb Pos.eqb].
    destruct out as [p0|]; tidy; rewrite Hdisk; tidy;
      unfold extend; cbn [trace files]; rewrite <- ?app_assoc; cbn [app];
      eexists _, _; (split; [reflexivity|]);
      [reflexivity | eexists; reflexivity].
  - run. tidy. rewrite Hpost, Hst. cbn [Z.eqb Pos.eqb].
    destruct out as [p0|]; tidy; rewrite Hdisk; tidy;
      unfold extend; cbn [trace files]; rewrite <- ?app_assoc; cbn [app];
      eexists _, _; (split; [reflexivity|]);
      [reflexivity | eexists; reflexivity].
Qed.

(** [synthesize_saves_structured_audio] on a client whose [convert]
    returns a buffer. *)
Lemma synthesize_saves_structured_audio_witness :
  exists p evs,
    synthesize (Scenarios.tts Scenarios.converting) Scenarios.serving
      (lit "hello") Scenarios.voice default_stability default_similarity None
      Scenarios.fresh =
      (Ret (Some p),
       {| trace := trace Scenarios.fresh ++ evs;
          files := <[p := Scenarios.audio_a]> (files Scenarios.fresh) |}) /\
    List.filter is_post evs = [] /\
    exists tr,
      p = default_path (Scenarios.tts Scenarios.converting)
            (strftime_now Scenarios.serving tr).
Proof.
  apply (synthesize_saves_structured_audio
           (Scenarios.tts Scenarios.converting) Scenarios.serving
           (fun _ _ _ _ _ _ => Ret (RespBytes Scenarios.audio_a))
           (RespBytes Scenarios.audio_a) Scenarios.audio_a
           (lit "hello") Scenarios.voice default_stability default_similarity
           None Scenarios.fresh); reflexivity.
Defined.

(** [synthesize_saves_rest_audio] on a client without [convert], in front
    of an endpoint that serves audio. *)
Lemma synthesize_saves_rest_audio_witness :
  exists p evs,
    synthesize (Scenarios.tts Scenarios.without_sdk) Scenarios.serving
      (lit "hello") Scenarios.voice default_stability default_similarity
      (Some (lit "out.mp3")) Scenarios.fresh =
      (Ret (Some p),
       {| trace := trace Scenarios.fresh ++ evs;
          files := <[p := Scenarios.audio_b]> (files Scenarios.fresh) |}) /\
    p = lit "out.mp3".
Proof.
  apply (synthesize_saves_rest_audio
           (Scenarios.tts Scenarios.without_sdk) Scenarios.serving
           (Scenarios.ok_response Scenarios.audio_b [Scenarios.audio_b])
           (lit "hello") Scenarios.voice default_stability default_similarity
           (Some (lit "out.mp3")) Scenarios.fresh);
    first [exact I | reflexivity].
Defined.

(** X5.  The default path has the clock's second in it and nothing else of
    the call: two calls without an output path that succeed while the
    clock gives the same timestamp return the same path, and the second
    replaces what the first one saved. *)
Theorem synthesize_same_timestamp_overwrites
    self os ts text1 voice1 stab1 sim1 text2 voice2 stab2 sim2
    w p1 w1 p2 w2 :
  (forall tr, strftime_now os tr = ts) ->
  synthesize self os text1 voice1 stab1 sim1 None w = (Ret (Some p1), w1) ->
  synthesize self os text2 voice2 stab2 sim2 None w1 = (Ret (Some p2), w2) ->
  p1 = default_path self ts /\ p2 = p1 /\
  exists data1 data2,
    files w1 = <[p1 := data1]> (files w) /\
    files w2 = <[p1 := data2]> (files w).
Proof.
  intros Hclock H1 H2.
  destruct (synthesize_effect self os text1 voice1 stab1 sim1 None w)
    as (r1 & evs1 & fs1 & E1 & Hd1 & _).
  destruct (synthesize_effect self os text2 voice2 stab2 sim2 None w1)
    as (r2 & evs2 & fs2 & E2 & Hd2 & _).
  rewrite H1 in E1. rewrite H2 in E2.
  injection E1 as <- ->. injection E2 as <- ->. cbn [files] in *.
  destruct Hd1 as [(_ & [=] & _) | (q1 & _ & [tr1 ->] & Hf1)].
  destruct Hd2 as [(_ & [=] & _) | (q2 & _ & [tr2 ->] & Hf2)].
  rewrite !Hclock in *.
  destruct Hf1 as [(d1 & [= ->] & ->) | [[[=] _] | (? & [=] & _)]].
  destruct Hf2 as [(d2 & [= ->] & ->) | [[[=] _] | (? & [=] & _)]].
  split; [done|]. split; [done|].
  exists d1, d2. split; [done|]. apply insert_insert_eq.
Qed.

(** [synthesize_same_timestamp_overwrites] on two calls in the same
    second: the file holds the audio of the second call. *)
Lemma synthesize_same_timestamp_overwrites_witness :
  let first := synthesize (Scenarios.tts MoreScenarios.by_text)
                 Scenarios.serving (lit "one") Scenarios.voice
                 default_stability default_similarity None Scenarios.fresh in
  let second := synthesize (Scenarios.tts MoreScenarios.by_text)
                  Scenarios.serving (lit "two") Scenarios.voice
                  default_stability default_similarity None first.2 in
  let path := lit "assets/outputs/output_20240101_120000.mp3" in
  files first.2 !! path = Some Scenarios.audio_a /\
  files second.2 !! path = Some Scenarios.audio_b /\
  path = default_path (Scenarios.tts MoreScenarios.by_text)
           (lit "20240101_120000") /\
  path = path /\
  exists data1 data2,
    files first.2 = <[path := data1]> (files Scenarios.fresh) /\
    files second.2 = <[path := data2]> (files Scenarios.fresh).
Proof.
  cbv zeta. do 2 (split; [vm_compute; reflexivity|]).
  apply (synthesize_same_timestamp_overwrites
    (Scenarios.tts MoreScenarios.by_text) Scenarios.serving
    (lit "20240101_120000")
    (lit "one") Scenarios.voice default_stability default_similarity
    (lit "two") Scenarios.voice default_stability default_similarity
    Scenarios.fresh).
  - reflexivity.
  - vm_compute. reflexivity.
  - vm_compute. reflexivity.
Defined.

(** X6.  [_rest_generate_bytes] never raises and touches no file.  It
    sends one request, not streamed, to the URL of the voice, with the API
    key among its headers and the text, model and settings it was given;
    it returns the body exactly when the answer has status 200, and [None]
    after one printed line in every other case. *)
Theorem rest_generate_bytes_outcome self os text voice_id stab sim model w :
  let req := tts_request self text voice_id stab sim model false in
  exists audio lines,
    _rest_generate_bytes self os text voice_id stab sim model w
      = (Ret audio, extend (EvPost req :: lines) w) /\
    (forall body,
       audio = Some body <->
       exists resp,
         requests_post os (trace w) req = Ret resp /\
         status_code resp = 200 /\ content resp = body) /\
    (audio = None -> exists m, lines = [EvPrint m]) /\
    (forall body, audio = Some body -> lines = []) /\
    req_url req = lit "https://api.elevenlabs.io/v1/text-to-speech/" ++ voice_id /\
    (lit "xi-api-key", api_key self) ∈ req_headers req /\
    req_json req = {| p_text := text; p_model := model;
                      p_stability := stab; p_similarity := sim |} /\
    req_stream req = false.
Proof.
  cbv zeta. unfold _rest_generate_bytes. run. tidy. on_post.
  - on_status; tidy.
    + exists (Some (content resp)), []. split; [done|]. split.
      { intros body. split.
        - intros [= <-]. by exists resp.
        - intros (resp' & [= <-] & _ & <-). done. }
      repeat split; try done. unfold tts_request. cbn [req_headers]. rewrite !elem_of_cons. auto.
    + eexists None, [_]. split; [reflexivity|]. split.
      { intros body. split; [done|].
        intros (resp' & [= <-] & ? & _). done. }
      repeat split; try done; [by eexists|]. unfold tts_request. cbn [req_headers]. rewrite !elem_of_cons. auto.
  - tidy. eexists None, [_]. split; [reflexivity|]. split.
    { intros body. split; [done|]. intros (resp' & [=] & _). }
    repeat split; try done; [by eexists|]. unfold tts_request. cbn [req_headers]. rewrite !elem_of_cons. auto.
Qed.

(* ===================================================================== *)
(** * More on [synthesize_streaming]                                      *)
(* ===================================================================== *)

(** X7.  When the structured stream runs to its end, the generator yields
    its chunks, in order and as they are, empty ones included, and then
    ends: no REST request is sent and nothing is printed. *)
Theorem streaming_yields_complete_stream
    self os stream it text voice_id stab sim w :
  text_to_speech_stream (client self) = Some stream ->
  stream (trace w) voice_id text monolingual stab sim = Ret it ->
  it_error it = None ->
  synthesize_streaming self os text voice_id stab sim w =
    (Ret tt,
     extend (EvStream voice_id text monolingual stab sim
               :: (EvYield <$> it_chunks it)) w).
Proof.
  intros Hcap Hcall Herr.
  destruct (streaming_structured_only self os text voice_id stab sim w)
    as [-> _].
  - unfold stream_completes, stream_answer. by rewrite Hcap, Hcall, Herr.
  - unfold sdk_events, streamed, stream_answer. by rewrite Hcap, Hcall.
Qed.

(** A client whose [stream] delivers two chunks, the first of them empty,
    and ends. *)
Lemma streaming_yields_complete_stream_witness :
  synthesize_streaming (Scenarios.tts MoreScenarios.streaming)
    Scenarios.serving (lit "hello") Scenarios.voice
    default_stability default_similarity Scenarios.fresh =
    (Ret tt,
     extend [EvStream Scenarios.voice (lit "hello") monolingual
               default_stability default_similarity;
             EvYield []; EvYield Scenarios.audio_a] Scenarios.fresh).
Proof.
  apply (streaming_yields_complete_stream
           (Scenarios.tts MoreScenarios.streaming) Scenarios.serving
           (fun _ _ _ _ _ _ =>
              Ret {| it_chunks := [[]; Scenarios.audio_a]; it_error := None |})
           {| it_chunks := [[]; Scenarios.audio_a]; it_error := None |});
    reflexivity.
Defined.

(** X8.  When the structured attempt yields nothing (the client lacks
    [stream], or the call raises, or the stream raises before its first
    chunk) and the REST request is answered with 200 and a body that
    arrives in full, in whatever chunks, the generator ends without an
    exception and what it has yielded is that body, in chunks none of
    which is empty. *)
Theorem streaming_falls_back_to_body
    self os resp text voice_id stab sim w :
  match text_to_speech_stream (client self) with
  | Some stream =>
      match stream (trace w) voice_id text monolingual stab sim with
      | Ret it => it_chunks it = [] /\ it_error it <> None
      | Raise _ => True
      end
  | None => True
  end ->
  (forall tr,
     requests_post os tr (tts_request self text voice_id stab sim monolingual true)
       = Ret resp) ->
  status_code resp = 200 ->
  concat (it_chunks (iter_content resp chunk_size)) = content resp ->
  exists chunks,
    (synthesize_streaming self os text voice_id stab sim w).1 = Ret tt /\
    yielded (trace (synthesize_streaming self os text voice_id stab sim w).2)
      = yielded (trace w) ++ chunks /\
    concat chunks = content resp /\
    Forall (fun c => c <> []) chunks.
Proof.
  intros Hsdk Hpost Hst Hbody.
  assert (Hc : stream_completes self (trace w) text voice_id stab sim = false).
  { unfold stream_completes, stream_answer.
    destruct (text_to_speech_stream (client self)) as [stream|]; [|done].
    destruct (stream _ _ _ _ _ _) as [it|e]; [|done].
    destruct Hsdk as [_ He]. by destruct (it_error it). }
  assert (Hs : streamed self (trace w) text voice_id stab sim = []).
  { unfold streamed, stream_answer.
    destruct (text_to_speech_stream (client self)) as [stream|]; [|done].
    destruct (stream _ _ _ _ _ _) as [it|e]; [|done]. by destruct Hsdk. }
  destruct (synthesize_streaming_run self os text voice_id stab sim w)
    as (tail & E & _).
  rewrite synthesize_streaming_yielded, Hc, Hs, E. cbn [app fst].
  eexists. split; [done|]. split; [reflexivity|].
  split; [|apply filter_nonempty_all].
  rewrite concat_filter_nonempty. unfold delivered. by rewrite Hpost, Hst.
Qed.

(** A client without [stream], in front of an endpoint that serves
    [audio_b] as an empty chunk followed by the body. *)
Lemma streaming_falls_back_to_body_witness :
  exists chunks,
    (synthesize_streaming (Scenarios.tts Scenarios.without_sdk)
       MoreScenarios.serving_with_gap (lit "hello") Scenarios.voice
       default_stability default_similarity Scenarios.fresh).1 = Ret tt /\
    yielded (trace (synthesize_streaming (Scenarios.tts Scenarios.without_sdk)
                      MoreScenarios.serving_with_gap (lit "hello")
                      Scenarios.voice default_stability default_similarity
                      Scenarios.fresh).2)
      = yielded (trace Scenarios.fresh) ++ chunks /\
    concat chunks = Scenarios.audio_b /\
    Forall (fun c => c <> []) chunks.
Proof.
  apply (streaming_falls_back_to_body
           (Scenarios.tts Scenarios.without_sdk) MoreScenarios.serving_with_gap
           (Scenarios.ok_response Scenarios.audio_b [[]; Scenarios.audio_b]));
    first [exact I | reflexivity].
Defined.

(** X9.  The generator never raises into its consumer, and it never sends
    a request twice: it calls [stream] once when the client has it, and
    sends the REST request, streamed, at most once, after that call;
    both carry the caller's text, voice, stability and similarity. *)
Theorem synthesize_streaming_requests self os text voice_id stab sim w :
  exists evs,
    synthesize_streaming self os text voice_id stab sim w
      = (Ret tt, extend evs w) /\
    match text_to_speech_stream (client self) with
    | Some _ =>
        List.filter is_network evs = [EvStream voice_id text monolingual stab sim] \/
        List.filter is_network evs =
          [EvStream voice_id text monolingual stab sim;
           EvPost (tts_request self text voice_id stab sim monolingual true)]
    | None =>
        List.filter is_network evs
          = [EvPost (tts_request self text voice_id stab sim monolingual true)]
    end.
Proof.
  destruct (synthesize_streaming_run self os text voice_id stab sim w)
    as (tail & -> & _ & Hn).
  eexists. split; [reflexivity|].
  assert (Hy : forall chunks tl,
    List.filter is_network ((EvYield <$> chunks) ++ tl)
      = List.filter is_network tl).
  { intros chunks tl. induction chunks as [|c cs IH]; cbn; [done | exact IH]. }
  rewrite List.filter_app.
  unfold sdk_events, stream_completes, streamed, stream_answer.
  destruct (text_to_speech_stream (client self)) as [stream|].
  - cbn [List.filter is_network app].
    rewrite <- (app_nil_r (EvYield <$> _)), Hy. cbn [List.filter app].
    destruct (stream (trace w) voice_id text monolingual stab sim) as [it|e].
    + destruct (it_error it); [right | by left].
      cbn [List.filter is_network]. by rewrite Hy, Hn.
    + right. cbn [List.filter is_network]. by rewrite Hy, Hn.
  - cbn. by rewrite Hy, Hn.
Qed.

(** X10.  When the generator reaches the REST fallback and the request
    raises, or is answered with a status other than 200, the fallback
    yields nothing: the consumer has received the chunks of the structured
    attempt, if any, and the generator ends without an exception. *)
Theorem streaming_fallback_failure self os text voice_id stab sim w :
  stream_completes self (trace w) text voice_id stab sim = false ->
  (forall tr,
     match requests_post os tr
             (tts_request self text voice_id stab sim monolingual true) with
     | Ret resp => status_code resp <> 200
     | Raise _ => True
     end) ->
  (synthesize_streaming self os text voice_id stab sim w).1 = Ret tt /\
  yielded (trace (synthesize_streaming self os text voice_id stab sim w).2)
    = yielded (trace w) ++ streamed self (trace w) text voice_id stab sim.
Proof.
  intros Hc Hpost.
  destruct (synthesize_streaming_run self os text voice_id stab sim w)
    as (tail & E & _).
  rewrite synthesize_streaming_yielded, Hc, E. split; [done|].
  unfold delivered.
  match goal with
  | |- context [requests_post os ?tr ?req] =>
      specialize (Hpost tr); destruct (requests_post os tr req) as [resp|e]
  end.
  - destruct (Z.eqb_spec (status_code resp) 200); [done|].
    by rewrite app_nil_r.
  - by rewrite app_nil_r.
Qed.

(** A client without [stream], in front of an endpoint that answers 500. *)
Lemma streaming_fallback_failure_witness :
  (synthesize_streaming (Scenarios.tts Scenarios.without_sdk)
     Scenarios.failing (lit "hello") Scenarios.voice
     default_stability default_similarity Scenarios.fresh).1 = Ret tt /\
  yielded (trace (synthesize_streaming (Scenarios.tts Scenarios.without_sdk)
                    Scenarios.failing (lit "hello") Scenarios.voice
                    default_stability default_similarity Scenarios.fresh).2)
    = yielded (trace Scenarios.fresh) ++
      streamed (Scenarios.tts Scenarios.without_sdk) (trace Scenarios.fresh)
        (lit "hello") Scenarios.voice default_stability default_similarity.
Proof.
  apply (streaming_fallback_failure (Scenarios.tts Scenarios.without_sdk)
           Scenarios.failing).
  - reflexivity.
  - intros tr. simpl. discriminate.
Defined.

(* ===================================================================== *)
(** * More on [batch_synthesize]                                          *)
(* ===================================================================== *)

Lemma lit_cons a s : lit (String a s) = N_of_ascii a :: lit s.
Proof. reflexivity. Qed.

Lemma lit_inj s1 s2 : lit s1 = lit s2 -> s1 = s2.
Proof.
  revert s2. induction s1 as [|a s1 IH]; intros [|b s2]; try done.
  rewrite !lit_cons. intros [= Hab Hs].
  f_equal; [|by apply IH].
  rewrite <- (ascii_N_embedding a), <- (ascii_N_embedding b). by rewrite Hab.
Qed.

Lemma str_of_int_inj n m : str_of_int n = str_of_int m -> n = m.
Proof. intros H. apply lit_inj in H. by apply (inj pretty). Qed.

Lemma pretty_N_char_digit x : is_digit (N_of_ascii (pretty_N_char x)) = true.
Proof. unfold pretty_N_char. by repeat case_match. Qed.

Lemma pretty_N_go_digits x s :
  Forall (fun c => is_digit c = true) (lit s) ->
  Forall (fun c => is_digit c = true) (lit (pretty_N_go x s)).
Proof.
  revert s. induction (N.lt_wf_0 x) as [x _ IH]; intros s Hs.
  destruct (decide (x = 0)%N) as [->|Hx].
  - by rewrite pretty_N_go_0.
  - rewrite pretty_N_go_step by lia. apply IH.
    + apply N.div_lt; lia.
    + rewrite lit_cons. constructor; [apply pretty_N_char_digit | done].
Qed.

(** The decimal rendering of a natural number is made of digits. *)
Lemma str_of_int_digits (n : nat) :
  Forall (fun c => is_digit c = true) (str_of_int (Z.of_nat n)).
Proof.
  unfold str_of_int, pretty, pretty_Z.
  destruct (Z.of_nat n) as [|p|p] eqn:E; [by repeat constructor| |lia].
  unfold pretty, pretty_positive, pretty, pretty_N.
  destruct (decide (N.pos p = 0)%N); [by repeat constructor|].
  apply pretty_N_go_digits. constructor.
Qed.

(** The path of a batch item tells its index, whatever the timestamps. *)
Lemma batch_path_index self i j ts ts' :
  batch_path self i ts = batch_path self j ts' -> i = j.
Proof.
  unfold batch_path, path_join. intros H.
  apply app_inv_head in H. apply app_inv_head in H. apply app_inv_head in H.
  change (lit "_") with [95%N] in H. cbn [app] in H.
  destruct (run_unique is_digit
              (str_of_int (Z.of_nat (i + 1))) (95%N :: ts ++ lit ".mp3")
              (str_of_int (Z.of_nat (j + 1))) (95%N :: ts' ++ lit ".mp3"))
    as [Hd _]; try done; try apply str_of_int_digits.
  apply str_of_int_inj in Hd. lia.
Qed.

(** What the calls of a batch leave: the paths they return belong to
    indices from [i] on and differ from one another, their files are
    there at the end, and no file that was there has gone. *)
Lemma synthesize_each_paths self os n texts v st si :
  forall i w,
    let calls := synthesize_each self os n i texts v st si w in
    (forall p, p ∈ successes calls.1 ->
       exists j ts, (i <= j)%nat /\ p = batch_path self j ts) /\
    NoDup (successes calls.1) /\
    (forall p, p ∈ successes calls.1 -> is_Some (files calls.2 !! p)) /\
    (forall q, is_Some (files w !! q) -> is_Some (files calls.2 !! q)).
Proof.
  induction texts as [|text texts IH]; intros i w; cbv zeta.
  - cbn. split; [by intros p Hp; apply elem_of_nil in Hp|].
    split; [constructor|]. split; [|done].
    by intros p Hp; apply elem_of_nil in Hp.
  - cbn [synthesize_each].
    destruct (synthesize_effect self os text v st si
                (Some (batch_path self i
                         (strftime_now os
                            (trace w ++ [EvPrint (MsgBatchProgress (i + 1) n)]))))
                (extend [EvPrint (MsgBatchProgress (i + 1) n); EvNow] w))
      as (r & evs & fs & E & Hdisk & _).
    rewrite E.
    match goal with
    | |- context [synthesize_each self os n (S i) texts v st si ?w1] =>
        destruct (IH (S i) w1) as (Hidx & Hnd & Hthere & Hkept);
        destruct (synthesize_each self os n (S i) texts v st si w1)
          as [rs w2] eqn:Erest
    end.
    cbn [fst snd files extend] in *.
    assert (Hgrow : forall q, is_Some (files w !! q) -> is_Some (fs !! q)).
    { intros q Hq.
      destruct Hdisk as [(_ & _ & ->) | (p & _ & _ & Hfs)]; [done|].
      destruct Hfs as [(d & _ & ->) | [[_ ->] | (d & _ & ->)]]; [|done|];
        (destruct (decide (p = q)) as [->|Hne];
           [rewrite lookup_insert_eq; by eexists
           | by rewrite lookup_insert_ne]). }
    rewrite successes_cons.
    destruct r as [path|].
    2: { split; [|split; [done|split; [done|]]].
         - intros p Hp. destruct (Hidx p Hp) as (j & ts & Hj & ->).
           exists j, ts. split; [lia | done].
         - intros q Hq. by apply Hkept, Hgrow. }
    assert (Hpath : path = batch_path self i
              (strftime_now os
                 (trace w ++ [EvPrint (MsgBatchProgress (i + 1) n)])) /\
            is_Some (fs !! path)).
    { destruct Hdisk as [(_ & [=] & _) | (p & _ & -> & Hfs)].
      destruct Hfs as [(d & [= ->] & ->) | [[[=] _] | (? & [=] & _)]].
      split; [done|]. rewrite lookup_insert_eq. by eexists. }
    destruct Hpath as [Hpath Hfile].
    split; [|split; [|split]].
    + intros p Hp. apply elem_of_cons in Hp as [->|Hp].
      * eexists i, _. split; [lia | exact Hpath].
      * destruct (Hidx p Hp) as (j & ts & Hj & ->).
        exists j, ts. split; [lia | done].
    + constructor; [|done]. intros Hin.
      destruct (Hidx path Hin) as (j & ts & Hj & Hp).
      rewrite Hpath in Hp. apply batch_path_index in Hp. lia.
    + intros p Hp. apply elem_of_cons in Hp as [->|Hp]; [|by auto].
      by apply Hkept.
    + intros q Hq. by apply Hkept, Hgrow.
Qed.

(** X11.  [batch_synthesize] never raises, and no item of a batch
    overwrites another: the paths it returns differ from one another,
    even when the clock gives the same timestamp for all, because each
    holds the index of its text; and every path it returns is a file of
    the store when it returns. *)
Theorem batch_synthesize_paths_distinct self os texts voice_id stab sim w :
  exists paths,
    (batch_synthesize self os texts voice_id stab sim w).1 = Ret paths /\
    NoDup paths /\
    (forall p, p ∈ paths ->
       is_Some
         (files (batch_synthesize self os texts voice_id stab sim w).2 !! p)) /\
    (forall p, p ∈ paths ->
       exists i ts, (i < length texts)%nat /\ p = batch_path self i ts).
Proof.
  unfold batch_synthesize. rewrite batch_loop_run. cbn [app fst snd].
  destruct (synthesize_each_paths self os (length texts) texts voice_id
              stab sim 0%nat w) as (Hidx & Hnd & Hthere & _).
  eexists. split; [reflexivity|]. split; [done|]. split; [done|].
  clear Hnd Hthere Hidx.
  assert (H : forall ts i w0 p,
    p ∈ successes (synthesize_each self os (length texts) i ts voice_id
                     stab sim w0).1 ->
    exists j t, (j < i + length ts)%nat /\ p = batch_path self j t).
  { induction ts as [|text ts IH]; intros i w0 p.
    - cbn. by intros Hp; apply elem_of_nil in Hp.
    - cbn [synthesize_each].
      destruct (synthesize_effect self os text voice_id stab sim
                  (Some (batch_path self i
                           (strftime_now os
                              (trace w0 ++
                               [EvPrint (MsgBatchProgress (i + 1) (length texts))]))))
                  (extend [EvPrint (MsgBatchProgress (i + 1) (length texts)); EvNow] w0))
        as (r & evs & fs & E & Hdisk & _).
      rewrite E.
      match goal with
      | |- context [synthesize_each self os (length texts) (S i) ts
                      voice_id stab sim ?w1] =>
          pose proof (IH (S i) w1) as IH';
          destruct (synthesize_each self os (length texts) (S i) ts
                      voice_id stab sim w1) as [rs w2]
      end.
      cbn [fst snd length] in *. rewrite successes_cons.
      destruct r as [path|].
      + intros Hp. apply elem_of_cons in Hp as [->|Hp].
        * destruct Hdisk as [(_ & [=] & _) | (q & _ & -> & Hfs)].
          destruct Hfs as [(d & [= ->] & _) | [[[=] _] | (? & [=] & _)]].
          eexists i, _. split; [lia | reflexivity].
        * destruct (IH' p Hp) as (j & t & Hj & ->).
          exists j, t. split; [lia | done].
      + intros Hp. destruct (IH' p Hp) as (j & t & Hj & ->).
        exists j, t. split; [lia | done]. }
  intros p Hp. destruct (H texts 0%nat w p Hp) as (j & t & Hj & ->).
  exists j, t. split; [lia | done].
Qed.

(* ===================================================================== *)
(** * More on the helpers                                                 *)
(* ===================================================================== *)

Lemma split_from_length cur s :
  (length (split_from cur s)
   <= length s + match cur with [] => 0 | _ => 1 end)%nat.
Proof.
  revert cur. induction s as [|c s IH]; intros cur; cbn [split_from].
  - destruct cur; simpl; lia.
  - destruct (isspace c).
    + destruct cur; [specialize (IH []) | specialize (IH [])];
        simpl in *; lia.
    + specialize (IH (c :: cur)). destruct cur; simpl in *; lia.
Qed.

(** A text has no word exactly when it is blank. *)
Lemma split_nil s : split s = [] <-> blank s.
Proof.
  split.
  - intros H. pose proof (split_tokens s) as Ht. rewrite H in Ht.
    by inversion Ht.
  - intros H. apply (tokens_unique s); [apply split_tokens|].
    by apply tokens_blank.
Qed.

Lemma not_blank_char s : ~ blank s -> exists c, c ∈ s /\ isspace c = false.
Proof.
  unfold blank. induction s as [|c s IH]; intros H.
  - destruct H. constructor.
  - destruct (isspace c) eqn:Hc.
    + destruct IH as (c' & Hin & Hc').
      { intros Hs. apply H. by constructor. }
      exists c'. split; [by right | done].
    + exists c. split; [by left | done].
Qed.

(** X12.  A text that [validate_text] accepts has a character that is not
    whitespace, so [estimate_audio_duration] counts at least one word in
    it, and no more words than it has characters or than [max_length]
    allows. *)
Theorem accepted_text_has_words (text : pystr) (max_length : Z) :
  (validate_text text max_length).1 = true ->
  (exists c, c ∈ text /\ isspace c = false) /\
  (1 <= length (split text) <= length text)%nat /\
  Z.of_nat (length (split text)) <= max_length.
Proof.
  intros Hok.
  destruct (decide (falsy text || falsy (strip text) = true)) as [Hb|Hb].
  { apply blank_test in Hb.
    by rewrite (validate_text_blank _ max_length Hb) in Hok. }
  assert (Hnb : ~ blank text) by (by rewrite <- blank_test).
  rewrite (validate_text_not_blank _ _ Hnb) in Hok.
  destruct (Z.gtb_spec (Z.of_nat (length text)) max_length) as [|Hle];
    [done|].
  pose proof (split_from_length [] text) as Hlen. cbn [length] in Hlen.
  split; [by apply not_blank_char|]. unfold split.
  split; [|lia]. split; [|lia].
  destruct (split_from [] text) eqn:E; [|simpl; lia].
  by apply (split_nil text) in E.
Qed.

(** [accepted_text_has_words] on ["hello"] and the default bound. *)
Lemma accepted_text_has_words_witness :
  (exists c, c ∈ lit "hello" /\ isspace c = false) /\
  (1 <= length (split (lit "hello")) <= length (lit "hello"))%nat /\
  Z.of_nat (length (split (lit "hello"))) <= default_max_length.
Proof.
  apply (accepted_text_has_words (lit "hello") default_max_length).
  vm_compute. reflexivity.
Defined.

Lemma tokens_pad_left gap s ws : blank gap -> tokens s ws -> tokens (gap ++ s) ws.
Proof.
  intros Hg Ht. induction Hg as [|c gap Hc Hg IH]; [done|].
  by apply tokens_cons_space.
Qed.

Lemma tokens_pad_right s ws gap : tokens s ws -> blank gap -> tokens (s ++ gap) ws.
Proof.
  intros Ht Hg.
  induction Ht as [g Hb | g w Hb Hw | g w sp rest ws Hb Hw Hsp Hr IH].
  - apply tokens_blank. unfold blank in *. by apply Forall_app.
  - destruct Hg as [|sp gap Hsp Hg].
    + rewrite app_nil_r. by apply tokens_last.
    + rewrite <- app_assoc. apply tokens_more; [done..|].
      by apply tokens_blank.
  - rewrite <- !app_assoc. cbn [app]. by apply tokens_more.
Qed.

Lemma split_padded gap1 s gap2 :
  blank gap1 -> blank gap2 -> split (gap1 ++ s ++ gap2) = split s.
Proof.
  intros H1 H2. apply (tokens_unique (gap1 ++ s ++ gap2)).
  - apply split_tokens.
  - apply tokens_pad_left; [done|].
    apply tokens_pad_right; [apply split_tokens | done].
Qed.

Lemma lstrip_cut s : exists pre, blank pre /\ s = pre ++ lstrip s.
Proof.
  induction s as [|c s (pre & Hp & E)]; [by exists []; split; [constructor|]|].
  cbn [lstrip]. destruct (isspace c) eqn:Hc.
  - exists (c :: pre). split; [by constructor|]. simpl. by f_equal.
  - exists []. split; [constructor | done].
Qed.

(** What [strip] removes is whitespace at both ends. *)
Lemma strip_cut s :
  exists pre post, blank pre /\ blank post /\ s = pre ++ strip s ++ post.
Proof.
  destruct (lstrip_cut s) as (pre & Hpre & E).
  destruct (lstrip_cut (rev (lstrip s))) as (post & Hpost & E').
  exists pre, (rev post). split; [done|]. split.
  - unfold blank in *. by apply Forall_rev.
  - unfold strip, rstrip. rewrite <- rev_app_distr, <- E', rev_involutive.
    exact E.
Qed.

(** X13.  [estimate_audio_duration] does not see whitespace around a
    text: putting whitespace before it or after it, or taking it away with
    [strip], leaves the estimate as it is, at any rate. *)
Theorem estimate_ignores_outer_whitespace :
  (forall gap1 text gap2 words_per_minute,
     blank gap1 -> blank gap2 ->
     estimate_audio_duration (gap1 ++ text ++ gap2) words_per_minute
       = estimate_audio_duration text words_per_minute) /\
  (forall text words_per_minute,
     estimate_audio_duration (strip text) words_per_minute
       = estimate_audio_duration text words_per_minute).
Proof.
  assert (H : forall gap1 text gap2 wpm,
    blank gap1 -> blank gap2 ->
    estimate_audio_duration (gap1 ++ text ++ gap2) wpm
      = estimate_audio_duration text wpm).
  { intros gap1 text gap2 wpm H1 H2. unfold estimate_audio_duration.
    by rewrite split_padded. }
  split; [exact H|].
  intros text wpm. destruct (strip_cut text) as (pre & post & H1 & H2 & E).
  rewrite E at 2. symmetry. by apply H.
Qed.

(** [estimate_ignores_outer_whitespace] on ["  one two three \n"]. *)
Lemma estimate_ignores_outer_whitespace_witness :
  estimate_audio_duration (lit "  " ++ lit "one two three" ++ [32; 10]%N)
    default_words_per_minute
  = estimate_audio_duration (lit "one two three") default_words_per_minute.
Proof.
  apply (proj1 estimate_ignores_outer_whitespace);
    unfold blank; repeat constructor.
Defined.

Lemma presets_entry preset s :
  presets !! preset = Some s ->
  (preset, s) ∈
    [ (lit "stable", {| stability := 0.75%float; similarity := 0.75%float |});
      (lit "balanced", {| stability := 0.50%float; similarity := 0.75%float |});
      (lit "expressive", {| stability := 0.30%float; similarity := 0.80%float |}) ].
Proof. unfold presets. apply elem_of_list_to_map_2. Qed.

(** X14.  Whatever name it is asked for, [get_voice_settings_preset]
    gives a stability and a similarity between 0 and 1, the range
    [synthesize] documents for them. *)
Theorem preset_settings_in_range (preset : pystr) :
  let s := get_voice_settings_preset preset in
  PrimFloat.leb 0%float (stability s) = true /\
  PrimFloat.leb (stability s) 1%float = true /\
  PrimFloat.leb 0%float (similarity s) = true /\
  PrimFloat.leb (similarity s) 1%float = true.
Proof.
  cbv zeta. destruct (presets !! preset) as [s|] eqn:E.
  - rewrite (get_voice_settings_preset_known _ _ E).
    apply presets_entry in E.
    repeat (apply elem_of_cons in E as [[= _ ->] | E]; [by vm_compute|]).
    by apply elem_of_nil in E.
  - apply not_elem_of_dom in E.
    rewrite (get_voice_settings_preset_unknown _ E). by vm_compute.
Qed.

(** X15.  With the name ['balanced'], or with any name the table lacks,
    [synthesize_with_preset] is [synthesize] with the defaults of its own
    signature: stability 0.5, similarity 0.75 and no output path. *)
Theorem synthesize_with_preset_default self os text voice_id preset :
  preset = lit "balanced" \/ preset ∉ dom presets ->
  synthesize_with_preset self os text voice_id preset =
  synthesize self os text voice_id default_stability default_similarity None.
Proof.
  intros H. unfold synthesize_with_preset.
  assert (E : get_voice_settings_preset preset
              = {| stability := 0.5%float; similarity := 0.75%float |}).
  { destruct H as [-> | H].
    - apply get_voice_settings_preset_known, presets_balanced.
    - by apply get_voice_settings_preset_unknown. }
  by rewrite E.
Qed.

(** [synthesize_with_preset_default] on the name ['dramatic']. *)
Lemma synthesize_with_preset_default_witness :
  synthesize_with_preset (Scenarios.tts Scenarios.converting) Scenarios.serving
    (lit "hello") Scenarios.voice (lit "dramatic") =
  synthesize (Scenarios.tts Scenarios.converting) Scenarios.serving
    (lit "hello") Scenarios.voice default_stability default_similarity None.
Proof.
  apply synthesize_with_preset_default. right.
  rewrite presets_dom. vm_compute. set_solver.
Defined.

(* ===================================================================== *)
(** * [synthesize_multilingual]                                           *)
(* ===================================================================== *)

#[global] Arguments multilingual : simpl never.

Lemma base_trace_app ss1 ss2 :
  base_trace (ss1 ++ ss2) = base_trace ss1 ++ base_trace ss2.
Proof. apply omap_app. Qed.

Lemma base_trace_base evs : base_trace (Base <$> evs) = evs.
Proof. induction evs as [|e evs IH]; [done|]. cbn. f_equal. exact IH. Qed.

Lemma said_app ss1 ss2 : said (ss1 ++ ss2) = said ss1 ++ said ss2.
Proof. apply omap_app. Qed.

Lemma after_after a b ww : after b (after a ww) = after (a ++ b) ww.
Proof. unfold after; simpl. by rewrite app_assoc. Qed.

(** A lifted method adds the events it adds. *)
Lemma lift_run {A} (m : M A) ww r evs fs :
  m (narrow ww) = (r, {| trace := trace (narrow ww) ++ evs; files := fs |}) ->
  lift m ww = (r, {| steps := steps ww ++ (Base <$> evs); disk := fs |}).
Proof.
  intros H. unfold lift. rewrite H. cbn [trace files].
  by rewrite drop_app_length.
Qed.

Lemma lift_now os ww :
  lift (now os) ww =
    (Ret (strftime_now os (base_trace (steps ww))), after [Base EvNow] ww).
Proof. unfold after. by apply (lift_run (now os) ww _ [EvNow] (disk ww)). Qed.

Lemma lift_write_file os path data ww :
  lift (write_file os path data) ww =
    match open_write os (base_trace (steps ww)) path data with
    | Written =>
        (Ret tt, {| steps := steps ww ++ [Base (EvOpen path)];
                    disk := <[path := data]> (disk ww) |})
    | OpenFailed e => (Raise e, after [Base (EvOpen path)] ww)
    | WriteFailed e partial =>
        (Raise e, {| steps := steps ww ++ [Base (EvOpen path)];
                     disk := <[path := partial]> (disk ww) |})
    end.
Proof.
  unfold write_file, after.
  destruct (open_write os (base_trace (steps ww)) path data) eqn:E;
    apply (lift_run _ ww _ [EvOpen path]); cbn [narrow trace files];
    by rewrite E.
Qed.

Lemma lift_rest self os text v st si model ww :
  let req := tts_request self text v st si model false in
  lift (_rest_generate_bytes self os text v st si model) ww =
    match requests_post os (base_trace (steps ww)) req with
    | Ret resp =>
        if status_code resp =? 200
        then (Ret (Some (content resp)), after [Base (EvPost req)] ww)
        else (Ret None,
              after [Base (EvPost req);
                     Base (EvPrint (MsgRestHttp (status_code resp)
                                      (resp_text resp)))] ww)
    | Raise e =>
        (Ret None,
         after [Base (EvPost req); Base (EvPrint (MsgRestError e))] ww)
    end.
Proof.
  cbv zeta. unfold after.
  destruct (requests_post os (base_trace (steps ww))
              (tts_request self text v st si model false)) as [resp|e] eqn:E.
  - destruct (status_code resp =? 200) eqn:Es.
    + apply (lift_run _ ww _ [_]). unfold _rest_generate_bytes. run.
      cbn [narrow trace]. rewrite E, Es. by tidy.
    + apply (lift_run _ ww _ [_; _]). unfold _rest_generate_bytes. run.
      cbn [narrow trace]. rewrite E, Es. by tidy.
  - apply (lift_run _ ww _ [_; _]). unfold _rest_generate_bytes. run.
    cbn [narrow trace]. rewrite E. by tidy.
Qed.

Ltac wrun :=
  unfold say, settle, call_generate, stat_size;
  unfold mbind, W_bind, mret, W_ret;
  unfold wbind, wret, wtry;
  cbn beta iota.

Ltac wtidy :=
  rewrite ?lift_now, ?lift_write_file, ?lift_rest, ?after_after;
  cbn [app steps disk after];
  rewrite ?base_trace_app; cbn [base_trace omap app];
  rewrite ?app_nil_r.

Ltac wcases := repeat (wtidy; first [on_post | on_status | on_write]).

Ltac wflat :=
  unfold after; cbn [steps disk]; rewrite <- ?app_assoc; cbn [app].

(** What a call does to the disk, to the provider and to the client,
    whatever happens. *)
Lemma synthesize_multilingual_effect self gen os text v st si ww :
  exists r ss fs,
    synthesize_multilingual self gen os text v st si ww =
      (Ret r, {| steps := steps ww ++ ss; disk := fs |}) /\
    ((opened (base_trace ss) = [] /\ r = None /\ fs = disk ww) \/
     (exists p,
        opened (base_trace ss) = [p] /\
        (exists tr, p = multilingual_path self (strftime_now os tr)) /\
        ((exists data, r = Some p /\ fs = <[p := data]> (disk ww)) \/
         (r = None /\ fs = disk ww) \/
         (exists partial, r = None /\ fs = <[p := partial]> (disk ww))))) /\
    (List.filter is_network (base_trace ss) = [] \/
     List.filter is_network (base_trace ss)
       = [post_event self text v st si multilingual false]) /\
    List.filter is_generate ss =
      match gen with
      | Some _ => [Generate text v multilingual st si]
      | None => []
      end.
Proof.
  unfold synthesize_multilingual.
  destruct gen as [generate|]; wrun.
  - wtidy.
    destruct (generate (base_trace (steps ww)) text v st si multilingual)
      as [it|e];
      [unfold join; destruct (it_error it)|]; wcases; wtidy; wflat.
    all: eexists _, _, _; split; [reflexivity|]; cbn.
    all: (split; [|by auto]).
    all: try (left; done).
    all: right; eexists; split; [reflexivity|]; split; [eexists; reflexivity|].
    all: eauto 6.
  - wcases; wtidy; wflat.
    all: eexists _, _, _; split; [reflexivity|]; cbn.
    all: (split; [|by auto]).
    all: try (left; done).
    all: right; eexists; split; [reflexivity|]; split; [eexists; reflexivity|].
    all: eauto 6.
Qed.

(** X16.  [synthesize_multilingual] never raises and opens at most one
    file for writing.  The file it opens, whether the call then succeeds
    or fails, is [output_dir/multilingual_<timestamp>.mp3]; it returns that
    path and nothing else, and only when the file is there; every other
    file of the store is left as it was. *)
Theorem synthesize_multilingual_touches_one_file
    self generate os text voice_id stab sim ww :
  exists r ss,
    (synthesize_multilingual self generate os text voice_id stab sim ww).1
      = Ret r /\
    steps (synthesize_multilingual self generate os text voice_id stab sim ww).2
      = steps ww ++ ss /\
    ((opened (base_trace ss) = [] /\ r = None) \/
     (exists p,
        opened (base_trace ss) = [p] /\
        (exists tr, p = multilingual_path self (strftime_now os tr)) /\
        (r = None \/
         (r = Some p /\
          is_Some
            (disk (synthesize_multilingual self generate os text voice_id
                     stab sim ww).2 !! p))))) /\
    (forall q, q ∉ opened (base_trace ss) ->
       disk (synthesize_multilingual self generate os text voice_id
               stab sim ww).2 !! q = disk ww !! q).
Proof.
  destruct (synthesize_multilingual_effect self generate os text voice_id
              stab sim ww) as (r & ss & fs & -> & Hdisk & _).
  exists r, ss. cbn [fst snd steps disk].
  split; [done|]. split; [done|].
  destruct Hdisk as [(Ho & -> & ->) | (p & Ho & Hp & Hfs)].
  - split; [by left|]. done.
  - rewrite Ho. split.
    + right. exists p. split; [done|]. split; [done|].
      destruct Hfs as [(data & -> & ->) | [[-> _] | (? & -> & _)]];
        [right|by left..].
      split; [done|]. rewrite lookup_insert_eq. by eexists.
    + intros q Hq. apply not_elem_of_cons in Hq as [Hq _].
      destruct Hfs as [(data & _ & ->) | [[_ ->] | (partial & _ & ->)]];
        [|done|]; by rewrite lookup_insert_ne.
Qed.

(** X17.  [synthesize_multilingual] calls [client.generate] once when the
    client has it and not at all when it has not, and sends the REST
    request at most once.  Both name the model [eleven_multilingual_v2],
    which [get_available_models] lists, and carry the caller's text,
    voice, stability and similarity. *)
Theorem synthesize_multilingual_requests
    self generate os text voice_id stab sim ww :
  exists ss,
    steps (synthesize_multilingual self generate os text voice_id stab sim ww).2
      = steps ww ++ ss /\
    List.filter is_generate ss =
      match generate with
      | Some _ => [Generate text voice_id multilingual stab sim]
      | None => []
      end /\
    (List.filter is_network (base_trace ss) = [] \/
     List.filter is_network (base_trace ss)
       = [EvPost (tts_request self text voice_id stab sim multilingual false)]) /\
    multilingual ∈ get_available_models /\
    multilingual <> monolingual.
Proof.
  destruct (synthesize_multilingual_effect self generate os text voice_id
              stab sim ww) as (r & ss & fs & -> & _ & Hnet & Hgen).
  exists ss. split; [done|]. split; [done|]. split; [exact Hnet|].
  split; [|by vm_compute].
  unfold get_available_models. rewrite !elem_of_cons. auto.
Qed.

(** X18.  When [client.generate] returns chunks that can all be read, and
    the disk takes the write, [synthesize_multilingual] saves exactly
    those chunks, joined in order, at the path it returns, and sends no
    REST request. *)
Theorem synthesize_multilingual_saves_generated_audio
    self generate it os text voice_id stab sim ww :
  generate (base_trace (steps ww)) text voice_id stab sim multilingual
    = Ret it ->
  it_error it = None ->
  (forall tr path, open_write os tr path (concat (it_chunks it)) = Written) ->
  exists p ss,
    synthesize_multilingual self (Some generate) os text voice_id stab sim ww
      = (Ret (Some p),
         {| steps := steps ww ++ ss;
            disk := <[p := concat (it_chunks it)]> (disk ww) |}) /\
    List.filter is_network (base_trace ss) = [] /\
    exists tr, p = multilingual_path self (strftime_now os tr).
Proof.
  intros Hgen Herr Hdisk.
  unfold synthesize_multilingual. wrun. wtidy.
  rewrite Hgen. unfold join. rewrite Herr. wtidy. rewrite Hdisk. wflat.
  eexists _, _. split; [reflexivity|]. split; [reflexivity|].
  eexists. reflexivity.
Qed.

(** X19.  When the client lacks [generate], or the call raises, or its
    chunks cannot all be read, [synthesize_multilingual] turns to the REST
    endpoint; when that answers 200 and the disk takes the write, the body
    of the answer is what is saved at the path returned. *)
Theorem synthesize_multilingual_falls_back
    self generate resp os text voice_id stab sim ww :
  match generate with
  | Some client_generate =>
      match client_generate (base_trace (steps ww)) text voice_id stab sim
              multilingual with
      | Ret it => it_error it <> None
      | Raise _ => True
      end
  | None => True
  end ->
  (forall tr,
     requests_post os tr
       (tts_request self text voice_id stab sim multilingual false)
       = Ret resp) ->
  status_code resp = 200 ->
  (forall tr path, open_write os tr path (content resp) = Written) ->
  exists p ss,
    synthesize_multilingual self generate os text voice_id stab sim ww
      = (Ret (Some p),
         {| steps := steps ww ++ ss;
            disk := <[p := content resp]> (disk ww) |}) /\
    List.filter is_network (base_trace ss)
      = [EvPost (tts_request self text voice_id stab sim multilingual false)] /\
    exists tr, p = multilingual_path self (strftime_now os tr).
Proof.
  intros Hgen Hpost Hst Hdisk.
  unfold synthesize_multilingual.
  destruct generate as [client_generate|]; wrun; wtidy.
  - destruct (client_generate (base_trace (steps ww)) text voice_id stab sim
                multilingual) as [it|e].
    + unfold join. destruct (it_error it) as [e|]; [|done].
      wtidy. rewrite Hpost, Hst. cbn [Z.eqb Pos.eqb]. wtidy.
      rewrite Hdisk. wflat.
      eexists _, _. split; [reflexivity|]. split; [reflexivity|].
      eexists. reflexivity.
    + wtidy. rewrite Hpost, Hst. cbn [Z.eqb Pos.eqb]. wtidy.
      rewrite Hdisk. wflat.
      eexists _, _. split; [reflexivity|]. split; [reflexivity|].
      eexists. reflexivity.
  - rewrite Hpost, Hst. cbn [Z.eqb Pos.eqb]. wtidy.
    rewrite Hdisk. wflat.
    eexists _, _. split; [reflexivity|]. split; [reflexivity|].
    eexists. reflexivity.
Qed.

(** X20.  When neither path gives audio, [synthesize_multilingual]
    returns [None], not an exception; the last line it prints says that no
    audio was received; it opens no file and leaves the store as it
    was. *)
Theorem synthesize_multilingual_no_audio
    self generate os text voice_id stab sim ww :
  match generate with
  | Some client_generate =>
      match client_generate (base_trace (steps ww)) text voice_id stab sim
              multilingual with
      | Ret it => it_error it <> None
      | Raise _ => True
      end
  | None => True
  end ->
  rest_gives_no_audio os
    (tts_request self text voice_id stab sim multilingual false) ->
  exists ss,
    synthesize_multilingual self generate os text voice_id stab sim ww
      = (Ret None, after ss ww) /\
    last (said ss) = Some LineMultilingualNoAudio /\
    opened (base_trace ss) = [].
Proof.
  intros Hgen Hrest.
  unfold synthesize_multilingual, rest_gives_no_audio in *.
  pose proof (Hrest (base_trace (steps ww))) as Hp.
  destruct generate as [client_generate|]; wrun; wtidy.
  - destruct (client_generate (base_trace (steps ww)) text voice_id stab sim
                multilingual) as [it|e].
    + unfold join. destruct (it_error it) as [e|]; [|done].
      wtidy. on_post; [on_status; [done|]|]; wtidy;
        eexists; (split; [reflexivity|]); done.
    + wtidy. on_post; [on_status; [done|]|]; wtidy;
        eexists; (split; [reflexivity|]); done.
  - on_post; [on_status; [done|]|]; wtidy;
      eexists; (split; [reflexivity|]); done.
Qed.

(** A [generate] that delivers two chunks, in front of a disk that takes
    every write. *)
Lemma synthesize_multilingual_saves_generated_audio_witness :
  exists p ss,
    synthesize_multilingual (Scenarios.tts Scenarios.without_sdk)
      (Some MoreScenarios.generating) Scenarios.serving (lit "hello")
      Scenarios.voice default_stability default_similarity
      MoreScenarios.fresh_wide
      = (Ret (Some p),
         {| steps := steps MoreScenarios.fresh_wide ++ ss;
            disk := <[p := Scenarios.audio_a ++ Scenarios.audio_b ++ []]>
                      (disk MoreScenarios.fresh_wide) |}) /\
    List.filter is_network (base_trace ss) = [] /\
    exists tr,
      p = multilingual_path (Scenarios.tts Scenarios.without_sdk)
            (strftime_now Scenarios.serving tr).
Proof.
  apply (synthesize_multilingual_saves_generated_audio
           (Scenarios.tts Scenarios.without_sdk) MoreScenarios.generating
           {| it_chunks := [Scenarios.audio_a; Scenarios.audio_b];
              it_error := None |} Scenarios.serving);
    reflexivity.
Defined.

(** A [generate] that raises after its first chunk, in front of an
    endpoint that serves [audio_b]: what is saved is [audio_b]. *)
Lemma synthesize_multilingual_falls_back_witness :
  exists p ss,
    synthesize_multilingual (Scenarios.tts Scenarios.without_sdk)
      (Some MoreScenarios.generate_interrupted) Scenarios.serving
      (lit "hello") Scenarios.voice default_stability default_similarity
      MoreScenarios.fresh_wide
      = (Ret (Some p),
         {| steps := steps MoreScenarios.fresh_wide ++ ss;
            disk := <[p := Scenarios.audio_b]>
                      (disk MoreScenarios.fresh_wide) |}) /\
    List.filter is_network (base_trace ss)
      = [EvPost (tts_request (Scenarios.tts Scenarios.without_sdk)
                   (lit "hello") Scenarios.voice default_stability
                   default_similarity multilingual false)] /\
    exists tr,
      p = multilingual_path (Scenarios.tts Scenarios.without_sdk)
            (strftime_now Scenarios.serving tr).
Proof.
  apply (synthesize_multilingual_falls_back
           (Scenarios.tts Scenarios.without_sdk)
           (Some MoreScenarios.generate_interrupted)
           (Scenarios.ok_response Scenarios.audio_b [Scenarios.audio_b])
           Scenarios.serving);
    first [reflexivity | by simpl].
Defined.

(** A client without [generate], in front of an endpoint that answers
    500. *)
Lemma synthesize_multilingual_no_audio_witness :
  exists ss,
    synthesize_multilingual (Scenarios.tts Scenarios.without_sdk) None
      Scenarios.failing (lit "hello") Scenarios.voice default_stability
      default_similarity MoreScenarios.fresh_wide
      = (Ret None, after ss MoreScenarios.fresh_wide) /\
    last (said ss) = Some LineMultilingualNoAudio /\
    opened (base_trace ss) = [].
Proof.
  apply (synthesize_multilingual_no_audio
           (Scenarios.tts Scenarios.without_sdk) None Scenarios.failing).
  - exact I.
  - intros tr. simpl. discriminate.
Defined.

(* ===================================================================== *)
(** * [get_audio_info]                                                    *)
(* ===================================================================== *)

(** X21.  [get_audio_info] never raises and changes no file; for a path
    that is not a file of the store it prints one error line and returns
    [None], whatever [soundfile] makes of the path. *)
Theorem get_audio_info_missing_file (sf : soundfile) (audio_path : pystr) ww :
  (exists r ss, get_audio_info sf audio_path ww = (Ret r, after ss ww)) /\
  (disk ww !! audio_path = None ->
   exists e,
     get_audio_info sf audio_path ww =
       (Ret None,
        after [SoundInfo audio_path; Say (LineAudioInfoError e)] ww)).
Proof.
  unfold get_audio_info. wrun. wtidy.
  destruct (sf audio_path (disk ww)) as [info|e]; wtidy.
  - destruct (_ !! _) as [data|]; wtidy.
    + split; [by eexists _, _|]. done.
    + split; [by eexists _, _|]. intros _. by eexists.
  - split; [by eexists _, _|]. intros _. by eexists.
Qed.

(** A path nothing was written to, read with a [soundfile] that would
    answer for any file that is there. *)
Lemma get_audio_info_missing_file_witness :
  exists e,
    get_audio_info MoreScenarios.reading (lit "nowhere.mp3")
      MoreScenarios.fresh_wide =
      (Ret None,
       after [SoundInfo (lit "nowhere.mp3"); Say (LineAudioInfoError e)]
         MoreScenarios.fresh_wide).
Proof.
  apply (get_audio_info_missing_file MoreScenarios.reading
           (lit "nowhere.mp3") MoreScenarios.fresh_wide).
  reflexivity.
Defined.

Lemma get_audio_info_reports_run (sf : soundfile) (audio_path : pystr)
    (info : sound_info) (data : bytes) ww :
  sf audio_path (disk ww) = Ret info ->
  disk ww !! audio_path = Some data ->
  get_audio_info sf audio_path ww =
    (Ret (Some {| duration := sf_duration info;
                  sample_rate := sf_samplerate info;
                  channels := sf_channels info;
                  format := sf_format info;
                  frames := sf_frames info;
                  file_size := Z.of_nat (length data) |}),
     after [SoundInfo audio_path] ww).
Proof.
  intros Hsf Hfile. unfold get_audio_info. wrun. wtidy.
  rewrite Hsf. unfold bytes in *. by rewrite Hfile.
Qed.

(** X22.  For a file of the store that [soundfile] can read,
    [get_audio_info] returns what [soundfile] read, field by field, and
    as [file_size] the number of bytes of the file; it prints nothing. *)
Theorem get_audio_info_reports (sf : soundfile) (audio_path : pystr)
    (info : sound_info) (data : bytes) ww :
  sf audio_path (disk ww) = Ret info ->
  disk ww !! audio_path = Some data ->
  get_audio_info sf audio_path ww =
    (Ret (Some {| duration := sf_duration info;
                  sample_rate := sf_samplerate info;
                  channels := sf_channels info;
                  format := sf_format info;
                  frames := sf_frames info;
                  file_size := Z.of_nat (length data) |}),
     after [SoundInfo audio_path] ww).
Proof. apply get_audio_info_reports_run. Qed.

(** A file of one second of audio, as [soundfile] reads it. *)
Lemma get_audio_info_reports_witness :
  get_audio_info MoreScenarios.reading (lit "a.mp3") MoreScenarios.stored =
    (Ret (Some {| duration := 1%float;
                  sample_rate := 22050;
                  channels := 1;
                  format := lit "MP3";
                  frames := 22050;
                  file_size := Z.of_nat (length Scenarios.audio_a) |}),
     after [SoundInfo (lit "a.mp3")] MoreScenarios.stored).
Proof.
  apply (get_audio_info_reports MoreScenarios.reading (lit "a.mp3")
           MoreScenarios.one_second Scenarios.audio_a MoreScenarios.stored);
    reflexivity.
Defined.

(** X23.  A path that [synthesize] has returned can be inspected in the
    store it left: the file is there, and [get_audio_info] returns [None]
    only when [soundfile] itself fails; when it does not,
    the [file_size] reported is the number of bytes in the file. *)
Theorem synthesized_file_can_be_inspected
    self os text voice_id stab sim out w p w' (sf : soundfile) ss :
  synthesize self os text voice_id stab sim out w = (Ret (Some p), w') ->
  exists data,
    files w' !! p = Some data /\
    match sf p (files w') with
    | Ret info =>
        (get_audio_info sf p {| steps := ss; disk := files w' |}).1 =
          Ret (Some {| duration := sf_duration info;
                       sample_rate := sf_samplerate info;
                       channels := sf_channels info;
                       format := sf_format info;
                       frames := sf_frames info;
                       file_size := Z.of_nat (length data) |})
    | Raise e =>
        (get_audio_info sf p {| steps := ss; disk := files w' |}).1 = Ret None
    end.
Proof.
  intros Hrun.
  destruct (synthesize_effect self os text voice_id stab sim out w)
    as (r & evs & fs & E & Hdisk & _).
  rewrite Hrun in E. injection E as <- ->. cbn [files].
  destruct Hdisk as [(_ & [=] & _) | (q & _ & _ & Hfs)].
  destruct Hfs as [(data & [= <-] & ->) | [[[=] _] | (? & [=] & _)]].
  exists data. split; [apply lookup_insert_eq|].
  destruct (sf p (<[p:=data]> (files w))) as [info|e] eqn:Hsf.
  - erewrite get_audio_info_reports_run; [done|..]; cbn [disk];
      [exact Hsf | apply lookup_insert_eq].
  - unfold get_audio_info. wrun. wtidy. by rewrite Hsf.
Qed.

(** The file a run of [synthesize] has written, read back. *)
Lemma synthesized_file_can_be_inspected_witness :
  exists data,
    files (synthesize (Scenarios.tts Scenarios.converting) Scenarios.serving
             (lit "hello") Scenarios.voice default_stability
             default_similarity (Some (lit "out.mp3")) Scenarios.fresh).2
      !! lit "out.mp3" = Some data /\
    (get_audio_info MoreScenarios.reading (lit "out.mp3")
       {| steps := [];
          disk := files (synthesize (Scenarios.tts Scenarios.converting)
                           Scenarios.serving (lit "hello") Scenarios.voice
                           default_stability default_similarity
                           (Some (lit "out.mp3")) Scenarios.fresh).2 |}).1 =
      Ret (Some {| duration := 1%float;
                   sample_rate := 22050;
                   channels := 1;
                   format := lit "MP3";
                   frames := 22050;
                   file_size := Z.of_nat (length data) |}).
Proof.
  apply (synthesized_file_can_be_inspected
           (Scenarios.tts Scenarios.converting) Scenarios.serving
           (lit "hello") Scenarios.voice default_stability default_similarity
           (Some (lit "out.mp3")) Scenarios.fresh (lit "out.mp3")
           (synthesize (Scenarios.tts Scenarios.converting) Scenarios.serving
              (lit "hello") Scenarios.voice default_stability
              default_similarity (Some (lit "out.mp3")) Scenarios.fresh).2
           MoreScenarios.reading []).
  reflexivity.
Defined.

(* ===================================================================== *)
(** * The application                                                     *)
(* ===================================================================== *)

Lemma initialize_fold (l : list (pystr * option pystr)) (s : session_state) :
  foldl (fun (s : session_state) '(key, value) =>
           match s !! key with
           | Some _ => s
           | None => <[key := value]> s
           end) s l
  = s ∪ list_to_map l.
Proof.
  unfold session_state in *.
  revert s. induction l as [|[k v] l IH]; intros s; cbn [foldl];
    unfold list_to_map in *; cbn [foldr fst snd].
  - by rewrite (right_id_L ∅ (∪)).
  - rewrite IH. apply map_eq. intros i. rewrite !lookup_union.
    destruct (s !! k) as [v0|] eqn:Hk.
    + destruct (decide (i = k)) as [->|Hne].
      * rewrite Hk, lookup_insert_eq. by destruct (foldr _ _ _ !! k).
      * by rewrite lookup_insert_ne.
    + destruct (decide (i = k)) as [->|Hne].
      * rewrite !lookup_insert_eq, Hk.
        by destruct (foldr _ _ _ !! k).
      * by rewrite !lookup_insert_ne.
Qed.

Lemma initialize_union (s : session_state) :
  initialize_session_state s = s ∪ list_to_map App.defaults.
Proof. apply initialize_fold. Qed.

Lemma initialize_lookup (s : session_state) (key : pystr) :
  initialize_session_state s !! key =
    match s !! key with
    | Some v => Some v
    | None => (list_to_map App.defaults : session_state) !! key
    end.
Proof.
  rewrite initialize_union. unfold session_state in *.
  rewrite lookup_union.
  destruct (s !! key), (list_to_map App.defaults !! key); done.
Qed.

Lemma initialize_has (s : session_state) (key : pystr) :
  key ∈ App.defaults.*1 -> is_Some (initialize_session_state s !! key).
Proof.
  intros Hin. rewrite initialize_lookup. destruct (s !! key); [done|].
  apply not_eq_None_Some. intros Hnone.
  by apply not_elem_of_list_to_map in Hnone.
Qed.

Ltac arun :=
  unfold audio, shows, get, set, run, require, call_transcribe,
    call_translate;
  unfold mbind, A_bind, mret, A_ret;
  unfold abind, aret, araise, atry, afinally;
  cbn beta iota.

Lemma voice_choice_run (s : session_state) ww (id name : option pystr) :
  s !! lit "cloned_voice_id" = Some id ->
  s !! lit "cloned_voice_name" = Some name ->
  exists voice w,
    get_voice_id_and_show_info s ww = (Ret voice, s, after [Shows w] ww) /\
    voice <> [] /\
    match id with
    | Some (c :: rest) => voice = c :: rest /\ w = InfoClonedVoice name
    | _ => voice = lit "Rachel" /\ w = WarningDefaultVoice
    end.
Proof.
  intros Hid Hname. unfold get_voice_id_and_show_info. arun.
  rewrite Hid. destruct id as [[|c rest]|]; cbn [falsy].
  - by eexists _, _.
  - rewrite Hname. by eexists _, _.
  - by eexists _, _.
Qed.

Lemma initialized_voice_choice (s0 : session_state) ww :
  exists voice w,
    get_voice_id_and_show_info (initialize_session_state s0) ww =
      (Ret voice, initialize_session_state s0, after [Shows w] ww) /\
    voice <> [] /\
    match s0 !! lit "cloned_voice_id" with
    | Some (Some (ch :: rest)) =>
        voice = ch :: rest /\
        exists name,
          initialize_session_state s0 !! lit "cloned_voice_name" = Some name /\
          w = InfoClonedVoice name
    | _ => voice = lit "Rachel" /\ w = WarningDefaultVoice
    end.
Proof.
  destruct (initialize_has s0 (lit "cloned_voice_name")) as [name Hname];
    [vm_compute; set_solver|].
  pose proof (initialize_lookup s0 (lit "cloned_voice_id")) as Hid.
  destruct (s0 !! lit "cloned_voice_id") as [id|] eqn:Hs0.
  - destruct (voice_choice_run _ ww _ _ Hid Hname) as (voice & w & E & Hv & Hw).
    exists voice, w. split; [done|]. split; [done|].
    destruct id as [[|ch rest]|]; [done| |done].
    destruct Hw as [-> ->]. eauto.
  - change ((list_to_map App.defaults : session_state) !! lit "cloned_voice_id")
      with (Some (@None pystr)) in Hid.
    destruct (voice_choice_run _ ww _ _ Hid Hname) as (voice & w & E & Hv & Hw).
    by exists voice, w.
Qed.


(* ===================================================================== *)
(** * [initialize_session_state] and the voice choice                     *)
(* ===================================================================== *)

(** X24.  [initialize_session_state] keeps every value the session
    already holds, gives each of its six names that is missing its
    default, adds no other name, and changes nothing when run again. *)
Theorem initialize_session_state_fills_gaps (s : session_state) :
  (forall key,
     initialize_session_state s !! key =
       match s !! key with
       | Some v => Some v
       | None => (list_to_map App.defaults : session_state) !! key
       end) /\
  (forall key, key ∈ App.defaults.*1 ->
     is_Some (initialize_session_state s !! key)) /\
  initialize_session_state (initialize_session_state s) =
    initialize_session_state s.
Proof.
  split; [apply initialize_lookup|]. split; [apply initialize_has|].
  apply map_eq. intros key. rewrite !initialize_lookup.
  destruct (s !! key); [done|]. by case_match.
Qed.

(** X25.  On an initialised session the voice choice does not raise,
    leaves the session as it is and shows one widget; the voice it
    returns is never empty: the cloned voice when the session holds a
    non-empty one, and ["Rachel"] with the warning otherwise. *)
Theorem voice_choice_after_initialisation (s0 : session_state) ww :
  exists voice w,
    get_voice_id_and_show_info (initialize_session_state s0) ww =
      (Ret voice, initialize_session_state s0, after [Shows w] ww) /\
    voice <> [] /\
    match s0 !! lit "cloned_voice_id" with
    | Some (Some (c :: rest)) =>
        voice = c :: rest /\ exists name, w = InfoClonedVoice name
    | _ => voice = lit "Rachel" /\ w = WarningDefaultVoice
    end.
Proof.
  destruct (initialized_voice_choice s0 ww) as (voice & w & E & Hv & Hw).
  exists voice, w. split; [done|]. split; [done|].
  destruct (s0 !! lit "cloned_voice_id") as [[[|ch rest]|]|]; [done| |done..].
  destruct Hw as (-> & name & _ & ->). eauto.
Qed.

(* ===================================================================== *)
(** * The two tools of the application                                    *)
(* ===================================================================== *)

(** X26.  An exception leaves the speech-to-speech tool only from
    [st.audio], which stands before its [try]: when [st.audio] cannot open
    the recording the tool raises that exception with the session and the
    page as they were, and once [st.audio] has opened it the tool ends
    without an exception, whatever the session holds and whatever the
    transcriber, the translator and the synthesiser do, and the last thing
    it does is to empty its progress bar.  The text tool lets no exception
    out. *)
Theorem tools_contain_exceptions (c : collaborators) a l tts_text st si
    (s : session_state) ww :
  match st_audio c (steps ww) (disk ww) a with
  | Raise e => speech_to_speech c a l st si s ww = (Raise e, s, ww)
  | Ret _ =>
      exists s' ww' ss,
        speech_to_speech c a l st si s ww = (Ret tt, s', ww') /\
        steps ww' = ss ++ [Shows ProgressEmpty]
  end /\
  (exists s' ww',
     text_to_speech_tool c tts_text st si s ww = (Ret tt, s', ww')).
Proof.
  split.
  - unfold speech_to_speech. arun.
    destruct (st_audio c (steps ww) (disk ww) a) as [[]|e]; [|done].
    destruct (get_voice_id_and_show_info s _) as [[[voice|e] s1] ww1];
      [|by eexists _, _, _].
    destruct (transcribe c _ a) as [[[|ch t]|]|e]; cbn [falsy];
      try by eexists _, _, _.
    destruct (translate c _ _ l) as [[[|ch' t']|]|e]; cbn [falsy];
      try by eexists _, _, _.
    destruct (tts_synthesize c _ _ st si _) as [[r|e] ww2];
      by eexists _, _, _.
  - unfold text_to_speech_tool. destruct (falsy tts_text); arun;
      [by eexists _, _|].
    destruct (get_voice_id_and_show_info s _) as [[[voice|e] s1] ww1];
      [|by eexists _, _].
    destruct (tts_synthesize c _ _ st si _) as [[r|e] ww2];
      by eexists _, _.
Qed.

(** A recording that [st.audio] cannot open: its exception leaves the
    tool, and neither the session nor the page has changed. *)
Lemma tools_contain_exceptions_witness :
  speech_to_speech
    (with_class (Scenarios.tts Scenarios.converting) Scenarios.serving
       MoreScenarios.unplayable MoreScenarios.hearing
       MoreScenarios.translating)
    (lit "gone.wav") (lit "en") default_stability default_similarity
    MoreScenarios.session MoreScenarios.fresh_wide =
    (Raise {| exn_type := "MediaFileStorageError";
              exn_str := lit "Error opening the file" |},
     MoreScenarios.session, MoreScenarios.fresh_wide).
Proof.
  exact (proj1 (tools_contain_exceptions
                  (with_class (Scenarios.tts Scenarios.converting)
                     Scenarios.serving MoreScenarios.unplayable
                     MoreScenarios.hearing MoreScenarios.translating)
                  (lit "gone.wav") (lit "en") [] default_stability
                  default_similarity MoreScenarios.session
                  MoreScenarios.fresh_wide)).
Defined.

(** X27.  When the transcriber returns nothing usable ([None] or the
    empty string), the speech-to-speech tool stores that as the source
    text with its label, shows the error of the missing transcription and
    stops: the translator and the synthesiser are not called, and the
    translated text and the output path of the session stay what they
    were.  (This is the run once [st.audio] has opened the recording; when
    it has not, its exception leaves the tool and nothing else
    happens.) *)
Theorem speech_to_speech_without_transcription (c : collaborators) a l st si
    (s0 : session_state) ww (t : option pystr) :
  (forall ss, transcribe c ss a = Ret t) ->
  truthy t = false ->
  exists w,
    speech_to_speech c a l st si (initialize_session_state s0) ww =
      match st_audio c (steps ww) (disk ww) a with
      | Ret _ =>
          (Ret tt,
           <[lit "source_text_label" := Some label_transcribed]>
             (<[lit "source_text" := t]> (initialize_session_state s0)),
           after [Shows (Audio a); Shows (Progress 0); Shows w;
                  Shows (Progress 25); Transcribe a;
                  Shows (ErrorPipeline (ValueError no_transcription));
                  Shows ProgressEmpty] ww)
      | Raise e => (Raise e, initialize_session_state s0, ww)
      end.
Proof.
  intros Hhear Hfalsy. unfold speech_to_speech. arun.
  destruct (st_audio c (steps ww) (disk ww) a) as [[]|e];
    [|by exists WarningDefaultVoice].
  destruct (initialized_voice_choice s0
              (after [Shows (Progress 0)] (after [Shows (Audio a)] ww)))
    as (voice & w & -> & _).
  exists w. rewrite Hhear.
  destruct t as [[|ch t]|]; [| done |]; cbn [falsy]; by wflat.
Qed.

(** A transcriber that hears nothing. *)
Lemma speech_to_speech_without_transcription_witness :
  exists w,
    speech_to_speech
      (MoreScenarios.app MoreScenarios.hearing_nothing
         MoreScenarios.translating)
      (lit "take.wav") (lit "en") default_stability default_similarity
      (initialize_session_state ∅) MoreScenarios.fresh_wide =
      (Ret tt,
       <[lit "source_text_label" := Some label_transcribed]>
         (<[lit "source_text" := Some []]> (initialize_session_state ∅)),
       after [Shows (Audio (lit "take.wav")); Shows (Progress 0); Shows w;
              Shows (Progress 25); Transcribe (lit "take.wav");
              Shows (ErrorPipeline (ValueError no_transcription));
              Shows ProgressEmpty] MoreScenarios.fresh_wide).
Proof.
  apply (speech_to_speech_without_transcription
           (MoreScenarios.app MoreScenarios.hearing_nothing
              MoreScenarios.translating)
           (lit "take.wav") (lit "en") default_stability default_similarity
           ∅ MoreScenarios.fresh_wide (Some [])).
  - intros ss. reflexivity.
  - reflexivity.
Defined.

(** X28.  When the transcriber returns a non-empty text and the
    translator nothing usable, the tool stores both, shows the error of
    the missing translation and stops: the translator was given the
    transcribed text and the target language, the synthesiser is not
    called, and the output path of the session stays what it was.  (This
    is the run once [st.audio] has opened the recording; when it has not,
    its exception leaves the tool and nothing else happens.) *)
Theorem speech_to_speech_without_translation (c : collaborators) a l st si
    (s0 : session_state) ww (text : pystr) (t : option pystr) :
  (forall ss, transcribe c ss a = Ret (Some text)) ->
  falsy text = false ->
  (forall ss, translate c ss text l = Ret t) ->
  truthy t = false ->
  exists w,
    speech_to_speech c a l st si (initialize_session_state s0) ww =
      match st_audio c (steps ww) (disk ww) a with
      | Ret _ =>
          (Ret tt,
           <[lit "translated_text" := t]>
             (<[lit "source_text_label" := Some label_transcribed]>
                (<[lit "source_text" := Some text]>
                   (initialize_session_state s0))),
           after [Shows (Audio a); Shows (Progress 0); Shows w;
                  Shows (Progress 25); Transcribe a;
                  Shows (Progress 50); Translate text l;
                  Shows (ErrorPipeline (ValueError no_translation));
                  Shows ProgressEmpty] ww)
      | Raise e => (Raise e, initialize_session_state s0, ww)
      end.
Proof.
  intros Hhear Htext Htrans Hfalsy. unfold speech_to_speech. arun.
  destruct (st_audio c (steps ww) (disk ww) a) as [[]|e];
    [|by exists WarningDefaultVoice].
  destruct (initialized_voice_choice s0
              (after [Shows (Progress 0)] (after [Shows (Audio a)] ww)))
    as (voice & w & -> & _).
  exists w. rewrite Hhear, Htext, Htrans.
  destruct t as [[|ch t]|]; [| done |]; cbn [falsy]; by wflat.
Qed.

(** A transcriber that hears a word and a translator that returns
    [None]. *)
Lemma speech_to_speech_without_translation_witness :
  exists w,
    speech_to_speech
      (MoreScenarios.app MoreScenarios.hearing
         MoreScenarios.translating_nothing)
      (lit "take.wav") (lit "en") default_stability default_similarity
      (initialize_session_state ∅) MoreScenarios.fresh_wide =
      (Ret tt,
       <[lit "translated_text" := None]>
         (<[lit "source_text_label" := Some label_transcribed]>
            (<[lit "source_text" := Some (lit "merhaba")]>
               (initialize_session_state ∅))),
       after [Shows (Audio (lit "take.wav")); Shows (Progress 0); Shows w;
              Shows (Progress 25); Transcribe (lit "take.wav");
              Shows (Progress 50); Translate (lit "merhaba") (lit "en");
              Shows (ErrorPipeline (ValueError no_translation));
              Shows ProgressEmpty] MoreScenarios.fresh_wide).
Proof.
  apply (speech_to_speech_without_translation
           (MoreScenarios.app MoreScenarios.hearing
              MoreScenarios.translating_nothing)
           (lit "take.wav") (lit "en") default_stability default_similarity
           ∅ MoreScenarios.fresh_wide (lit "merhaba") None).
  - intros ss. reflexivity.
  - reflexivity.
  - intros ss. reflexivity.
  - reflexivity.
Defined.



